(** * IdeaScape infinite canvas: the canvas store and its geometry

    A shallow embedding of the zustand store [useCanvasStore]
    (store/canvasStore.ts) and of the wheel-zoom geometry of
    [InfiniteCanvas.tsx].

    Conventions of the embedding.
    - A JavaScript [number] is an exact rational ([Q]); every constant of
      the source (0.1, 1.2, 0.85, ...) is the rational it denotes.
      [Math.sqrt] has no rational counterpart and is a parameter of the
      layout engine.
    - An array is a [list]; [undefined] / [null] are [None].
    - [set(state => ...)] is a function from [CanvasState.t] to
      [CanvasState.t]; the clock ([Date.now()], [new Date()]) read by an
      action is an explicit argument [now]. Timers started by an action
      ([setTimeout(autoSave)], the delayed [isNew] reset) are later events of
      their own and are not part of the action.
    - Each TypeScript interface is a record in a module of the same name, so
      that fields keep their source names ([Node.id], [Connection.id], ...). *)

From Stdlib Require Import List String Bool ZArith QArith Qminmax Qround Qabs Lia Lqa.
From Stdlib Require Import DecimalString.
Import ListNotations.
Open Scope string_scope.
Open Scope Q_scope.

(** ** Helpers standing for JavaScript built-ins *)

Definition Date := Z.
Bind Scope Z_scope with Date.

Definition string_of_Z (z : Z) : string := NilEmpty.string_of_int (Z.to_int z).

(** [a < b] on numbers. *)
Definition Qltb (a b : Q) : bool := negb (Qle_bool b a).

(** [Array.prototype.includes] on strings. *)
Definition includes (ids : list string) (s : string) : bool :=
  existsb (String.eqb s) ids.

(** [a === b] on optional strings. *)
Definition opt_eqb (a b : option string) : bool :=
  match a, b with
  | Some u, Some v => String.eqb u v
  | None, None => true
  | _, _ => false
  end.

(** [v || d]: a present value wins, [undefined] falls back. *)
Definition orElse {A : Type} (o : option A) (d : A) : A :=
  match o with Some v => v | None => d end.

(** [{...old, key: patch}] for one key of a [Partial<_>]. *)
Definition merge {A : Type} (old : A) (patch : option A) : A := orElse patch old.

(** ** Data model *)

Inductive ContentType := text | image | link | video.

Module Content.
Record t := mk {
    type : ContentType;
    value : string;
    title : option string;
    images : option (list string);
    links : option (list (string * string));
    videos : option (list string)
  }.
End Content.

Module Node.
  (** [createdAt] / [updatedAt] are optional at run time: persisted legacy
      nodes lack them, which [importCanvas] and [searchNodesByDate] handle. *)
Record t := mk {
    id : string;
    x : Q;
    y : Q;
    width : Q;
    height : Q;
    content : Content.t;
    groupId : option string;
    color : string;
    selected : bool;
    isNew : option bool;
    createdAt : option Date;
    updatedAt : option Date;
    comment : option string;
    tags : option (list string)
  }.

Definition set_groupId (g : option string) (n : t) : t :=
    mk (id n) (x n) (y n) (width n) (height n) (content n) g (color n)
       (selected n) (isNew n) (createdAt n) (updatedAt n) (comment n) (tags n).

Definition set_selected (b : bool) (n : t) : t :=
    mk (id n) (x n) (y n) (width n) (height n) (content n) (groupId n) (color n)
       b (isNew n) (createdAt n) (updatedAt n) (comment n) (tags n).

Definition set_stamps (c u : option Date) (n : t) : t :=
    mk (id n) (x n) (y n) (width n) (height n) (content n) (groupId n) (color n)
       (selected n) (isNew n) c u (comment n) (tags n).

  (** [{...n, x, y, updatedAt}] *)
Definition moved (x' y' : Q) (u : Date) (n : t) : t :=
    mk (id n) x' y' (width n) (height n) (content n) (groupId n) (color n)
       (selected n) (isNew n) (createdAt n) (Some u) (comment n) (tags n).
End Node.

(** [Partial<Node>]: a key is absent ([None]) or carries a value; an optional
    field may carry [undefined] explicitly. *)
Module NodePatch.
Record t := mk {
    id : option string;
    x : option Q;
    y : option Q;
    width : option Q;
    height : option Q;
    content : option Content.t;
    groupId : option (option string);
    color : option string;
    selected : option bool;
    isNew : option (option bool);
    createdAt : option (option Date);
    updatedAt : option (option Date);
    comment : option (option string);
    tags : option (option (list string))
  }.

Definition empty : t :=
    mk None None None None None None None None None None None None None None.
End NodePatch.

Module Connection.
Record t := mk {
    id : string;
    fromNodeId : string;
    toNodeId : string;
    fromPoint : option string;
    toPoint : option string;
    color : string
  }.
End Connection.

Module NodeGroup.
Record t := mk {
    id : string;
    name : string;
    color : string;
    nodes : list string
  }.

Definition set_nodes (l : list string) (g : t) : t :=
    mk (id g) (name g) (color g) l.
End NodeGroup.

Module GroupPatch.
Record t := mk {
    id : option string;
    name : option string;
    color : option string;
    nodes : option (list string)
  }.
End GroupPatch.

Module CanvasTransform.
Record t := mk { x : Q; y : Q; scale : Q }.
End CanvasTransform.

Module TransformPatch.
Record t := mk { x : option Q; y : option Q; scale : option Q }.
End TransformPatch.

Module SelectionBox.
Record t := mk {
    startX : Q;
    startY : Q;
    endX : Q;
    endY : Q;
    isActive : bool
  }.
End SelectionBox.

(** An entry of [history.past] / [history.future], and [history.present]. *)
Module Snapshot.
Record t := mk {
    nodes : list Node.t;
    connections : list Connection.t;
    groups : list NodeGroup.t
  }.
End Snapshot.

Module History.
Record t := mk {
    past : list Snapshot.t;
    present : Snapshot.t;
    future : list Snapshot.t
  }.
End History.

Inductive Theme := light | dark | system.

Module Settings.
Record t := mk { theme : Theme; username : string; email : string }.
End Settings.

Module ConnectionSuggestion.
Record t := mk {
    nodeId1 : string;
    nodeId2 : string;
    reason : string;
    confidence : Q
  }.
End ConnectionSuggestion.

Module AISuggestions.
Record t := mk {
    connections : list ConnectionSuggestion.t;
    groupSummary : option string;
    groupNames : list string;
    isLoading : bool;
    error : option string
  }.

Definition cleared : t := mk [] None [] false None.
End AISuggestions.

Module CanvasState.
Record t := mk {
    canvasName : string;
    nodes : list Node.t;
    connections : list Connection.t;
    groups : list NodeGroup.t;
    transform : CanvasTransform.t;
    selectedNodeId : option string;
    selectedNodeIds : list string;
    selectionBox : SelectionBox.t;
    isDragging : bool;
    isConnecting : bool;
    connectingFromNodeId : option string;
    history : History.t;
    settings : Settings.t;
    activeTagFilter : option string;
    hiddenNodes : list string;
    highlightedGroupId : option string;
    aiSuggestions : AISuggestions.t
  }.

  (** The live graph as a snapshot: [{nodes, connections, groups}]. *)
Definition graph (s : t) : Snapshot.t :=
    Snapshot.mk (nodes s) (connections s) (groups s).

  (** [{...s, nodes, connections, groups}] *)
Definition set_graph (g : Snapshot.t) (s : t) : t :=
    mk (canvasName s) (Snapshot.nodes g) (Snapshot.connections g)
       (Snapshot.groups g) (transform s) (selectedNodeId s) (selectedNodeIds s)
       (selectionBox s) (isDragging s) (isConnecting s) (connectingFromNodeId s)
       (history s) (settings s) (activeTagFilter s) (hiddenNodes s)
       (highlightedGroupId s) (aiSuggestions s).

Definition set_nodes (l : list Node.t) (s : t) : t :=
    set_graph (Snapshot.mk l (connections s) (groups s)) s.

Definition set_connections (l : list Connection.t) (s : t) : t :=
    set_graph (Snapshot.mk (nodes s) l (groups s)) s.


Definition set_history (h : History.t) (s : t) : t :=
    mk (canvasName s) (nodes s) (connections s) (groups s) (transform s)
       (selectedNodeId s) (selectedNodeIds s) (selectionBox s) (isDragging s)
       (isConnecting s) (connectingFromNodeId s) h (settings s)
       (activeTagFilter s) (hiddenNodes s) (highlightedGroupId s)
       (aiSuggestions s).

Definition set_transform (tr : CanvasTransform.t) (s : t) : t :=
    mk (canvasName s) (nodes s) (connections s) (groups s) tr
       (selectedNodeId s) (selectedNodeIds s) (selectionBox s) (isDragging s)
       (isConnecting s) (connectingFromNodeId s) (history s) (settings s)
       (activeTagFilter s) (hiddenNodes s) (highlightedGroupId s)
       (aiSuggestions s).

  (** [{...s, selectedNodeId, selectedNodeIds}] *)
Definition set_selection (one : option string) (many : list string) (s : t) : t :=
    mk (canvasName s) (nodes s) (connections s) (groups s) (transform s)
       one many (selectionBox s) (isDragging s)
       (isConnecting s) (connectingFromNodeId s) (history s) (settings s)
       (activeTagFilter s) (hiddenNodes s) (highlightedGroupId s)
       (aiSuggestions s).

Definition set_selectionBox (b : SelectionBox.t) (s : t) : t :=
    mk (canvasName s) (nodes s) (connections s) (groups s) (transform s)
       (selectedNodeId s) (selectedNodeIds s) b (isDragging s)
       (isConnecting s) (connectingFromNodeId s) (history s) (settings s)
       (activeTagFilter s) (hiddenNodes s) (highlightedGroupId s)
       (aiSuggestions s).


  (** [{...s, isConnecting, connectingFromNodeId}] *)
Definition set_connecting (b : bool) (from : option string) (s : t) : t :=
    mk (canvasName s) (nodes s) (connections s) (groups s) (transform s)
       (selectedNodeId s) (selectedNodeIds s) (selectionBox s) (isDragging s)
       b from (history s) (settings s)
       (activeTagFilter s) (hiddenNodes s) (highlightedGroupId s)
       (aiSuggestions s).
End CanvasState.

Definition initialGroups : list NodeGroup.t :=
  [ NodeGroup.mk "coral" "Coral Group" "#f87171" [];
    NodeGroup.mk "blue" "Blue Group" "#3b82f6" [];
    NodeGroup.mk "green" "Green Group" "#10b981" [] ].

Definition initialState : CanvasState.t :=
  CanvasState.mk "Untitled Canvas" [] [] initialGroups
    (CanvasTransform.mk 0 0 1) None []
    (SelectionBox.mk 0 0 0 0 false) false false None
    (History.mk [] (Snapshot.mk [] [] []) [])
    (Settings.mk system "" "")
    None [] None AISuggestions.cleared.

(** ** Store actions (canvasStore.ts) *)

Import CanvasState.

(** A string used as a condition: [undefined], [null] and the empty string
    are falsy. *)
Definition truthy (o : option string) : option string :=
  match o with
  | Some s => if String.eqb s "" then None else Some s
  | None => None
  end.

(** The three statements shared by the committing actions, run on the new
    state [newState = {...state, ...}], whose [history] object is still the
    one of [state]:
<<
      newState.history.past.push(state.history.present);
      newState.history.present = { nodes: newState.nodes, ... };
      newState.history.future = [];
>>
    The push and the two assignments act on that one shared object; the old
    state is dropped by [set], so the in-place update is observable only
    through the state returned here. *)
Definition commitHistory (newState : t) : t :=
  set_history
    (History.mk (History.past (history newState) ++ [History.present (history newState)])
                (graph newState)
                [])
    newState.


Definition clearCanvas (s : t) : t :=
  commitHistory
    (set_selection None (selectedNodeIds s)
       (set_graph (Snapshot.mk [] [] (groups s)) s)).

(** The default text; the source quotes the style attribute with double
    quotes, written here with single ones. *)
Definition defaultContent : Content.t :=
  Content.mk text "<p style='font-size: 14px;'>Double-click to edit</p>"
             None None None None.

Definition addNode (now : Date) (x y : Q) (s : t) : t :=
  let newNode :=
    Node.mk ("node-" ++ string_of_Z now) x y 200 120 defaultContent None
            "#ffffff" false (Some true) (Some now) (Some now) None None in
  commitHistory (set_nodes (nodes s ++ [newNode]) s).

(** [window.innerWidth] / [window.innerHeight] are arguments. *)
Definition addNodeAtCenter (now : Date) (innerWidth innerHeight : Q) (s : t) : t :=
  let centerX := (innerWidth / 2 - CanvasTransform.x (transform s))
                 / CanvasTransform.scale (transform s) in
  let centerY := (innerHeight / 2 - CanvasTransform.y (transform s))
                 / CanvasTransform.scale (transform s) in
  addNode now (centerX - 100) (centerY - 60) s.

Definition findNode (id : string) (l : list Node.t) : option Node.t :=
  find (fun n => String.eqb (Node.id n) id) l.

Definition duplicateNode (now : Date) (id : string) (s : t) : t :=
  match findNode id (nodes s) with
  | None => s
  | Some n =>
      let newNode :=
        Node.mk ("node-" ++ string_of_Z now) (Node.x n + 20) (Node.y n + 20)
                (Node.width n) (Node.height n) (Node.content n) (Node.groupId n)
                (Node.color n) false (Some true) (Some now) (Some now)
                (Node.comment n) (Node.tags n) in
      commitHistory (set_nodes (nodes s ++ [newNode]) s)
  end.

(** [{...node, ...updates, updatedAt: new Date()}] *)
Definition applyNodePatch (now : Date) (p : NodePatch.t) (n : Node.t) : Node.t :=
  Node.mk (merge (Node.id n) (NodePatch.id p))
          (merge (Node.x n) (NodePatch.x p))
          (merge (Node.y n) (NodePatch.y p))
          (merge (Node.width n) (NodePatch.width p))
          (merge (Node.height n) (NodePatch.height p))
          (merge (Node.content n) (NodePatch.content p))
          (merge (Node.groupId n) (NodePatch.groupId p))
          (merge (Node.color n) (NodePatch.color p))
          (merge (Node.selected n) (NodePatch.selected p))
          (merge (Node.isNew n) (NodePatch.isNew p))
          (merge (Node.createdAt n) (NodePatch.createdAt p))
          (Some now)
          (merge (Node.comment n) (NodePatch.comment p))
          (merge (Node.tags n) (NodePatch.tags p)).

Definition updateNode (now : Date) (id : string) (updates : NodePatch.t) (s : t) : t :=
  set_nodes
    (map (fun node => if String.eqb (Node.id node) id
                      then applyNodePatch now updates node else node)
         (nodes s))
    s.

Definition deleteNode (id : string) (s : t) : t :=
  commitHistory
    (set_selection
       (if opt_eqb (selectedNodeId s) (Some id) then None else selectedNodeId s)
       (selectedNodeIds s)
       (set_graph
          (Snapshot.mk
             (filter (fun node => negb (String.eqb (Node.id node) id)) (nodes s))
             (filter (fun conn =>
                        negb (String.eqb (Connection.fromNodeId conn) id)
                        && negb (String.eqb (Connection.toNodeId conn) id))
                     (connections s))
             (map (fun group =>
                     NodeGroup.set_nodes
                       (filter (fun nodeId => negb (String.eqb nodeId id))
                               (NodeGroup.nodes group))
                       group)
                  (groups s)))
          s)).

Definition selectNode (id : option string) (s : t) : t :=
  set_nodes
    (map (fun node => Node.set_selected (opt_eqb (Some (Node.id node)) id) node)
         (nodes s))
    (set_selection id
       (match truthy id with Some i => [i] | None => [] end) s).

Definition selectMultipleNodes (ids : list string) (s : t) : t :=
  set_nodes
    (map (fun node => Node.set_selected (includes ids (Node.id node)) node)
         (nodes s))
    (set_selection None ids s).

Definition clearSelection (s : t) : t :=
  set_nodes (map (Node.set_selected false) (nodes s))
            (set_selection None [] s).

Definition deleteNodes (ids : list string) (s : t) : t :=
  commitHistory
    (set_selection None []
       (set_graph
          (Snapshot.mk
             (filter (fun node => negb (includes ids (Node.id node))) (nodes s))
             (filter (fun conn =>
                        negb (includes ids (Connection.fromNodeId conn))
                        && negb (includes ids (Connection.toNodeId conn)))
                     (connections s))
             (map (fun group =>
                     NodeGroup.set_nodes
                       (filter (fun nodeId => negb (includes ids nodeId))
                               (NodeGroup.nodes group))
                       group)
                  (groups s)))
          s)).

(** The test of [addConnection] for an existing link between the pair, in
    either direction. *)
Definition linksPair (fromNodeId toNodeId : string) (conn : Connection.t) : bool :=
  (String.eqb (Connection.fromNodeId conn) fromNodeId
   && String.eqb (Connection.toNodeId conn) toNodeId)
  || (String.eqb (Connection.fromNodeId conn) toNodeId
      && String.eqb (Connection.toNodeId conn) fromNodeId).

Definition addConnection (now : Date) (fromNodeId toNodeId : string)
           (fromPoint toPoint : option string) (s : t) : t :=
  if String.eqb fromNodeId toNodeId then s
  else
    match find (linksPair fromNodeId toNodeId) (connections s) with
    | Some _ => s
    | None =>
        let newConnection :=
          Connection.mk ("conn-" ++ string_of_Z now) fromNodeId toNodeId
                        fromPoint toPoint "#000000" in
        set_connecting false None
          (set_connections (connections s ++ [newConnection]) s)
    end.


Definition addGroup (now : Date) (name color : string) (nodeIds : list string)
           (s : t) : t :=
  let newGroup := NodeGroup.mk ("group-" ++ string_of_Z now) name color nodeIds in
  set_graph
    (Snapshot.mk
       (map (fun node => if includes nodeIds (Node.id node)
                         then Node.set_groupId (Some (NodeGroup.id newGroup)) node
                         else node)
            (nodes s))
       (connections s)
       (groups s ++ [newGroup]))
    s.



Definition deleteGroup (id : string) (s : t) : t :=
  set_graph
    (Snapshot.mk
       (map (fun node => if opt_eqb (Node.groupId node) (Some id)
                         then Node.set_groupId None node else node)
            (nodes s))
       (connections s)
       (filter (fun group => negb (String.eqb (NodeGroup.id group) id)) (groups s)))
    s.

(** [[...new Set(l)]]: first occurrences, in order. *)
Fixpoint uniq (seen l : list string) : list string :=
  match l with
  | [] => []
  | a :: r => if includes seen a then uniq seen r else a :: uniq (a :: seen) r
  end.

Definition assignNodesToGroup (nodeIds : list string) (groupId : string) (s : t) : t :=
  match find (fun g => String.eqb (NodeGroup.id g) groupId) (groups s) with
  | None => s
  | Some _ =>
      set_graph
        (Snapshot.mk
           (map (fun node => if includes nodeIds (Node.id node)
                             then Node.set_groupId (Some groupId) node else node)
                (nodes s))
           (connections s)
           (map (fun g =>
                   if String.eqb (NodeGroup.id g) groupId
                   then NodeGroup.set_nodes (uniq [] (NodeGroup.nodes g ++ nodeIds)) g
                   else NodeGroup.set_nodes
                          (filter (fun id => negb (includes nodeIds id))
                                  (NodeGroup.nodes g)) g)
                (groups s)))
        s
  end.

Definition removeNodesFromGroups (nodeIds : list string) (s : t) : t :=
  set_graph
    (Snapshot.mk
       (map (fun node => if includes nodeIds (Node.id node)
                         then Node.set_groupId None node else node)
            (nodes s))
       (connections s)
       (map (fun group =>
               NodeGroup.set_nodes
                 (filter (fun id => negb (includes nodeIds id)) (NodeGroup.nodes group))
                 group)
            (groups s)))
    s.

(** *** Transform actions *)

(** [{ ...state.transform, ...transform }] *)
Definition setTransform (p : TransformPatch.t) (s : t) : t :=
  set_transform
    (CanvasTransform.mk
       (merge (CanvasTransform.x (transform s)) (TransformPatch.x p))
       (merge (CanvasTransform.y (transform s)) (TransformPatch.y p))
       (merge (CanvasTransform.scale (transform s)) (TransformPatch.scale p)))
    s.

Module Size.
Record t := mk { width : Q; height : Q }.
End Size.

(** The bounding-box loop of [fitToScreen]. It starts from [Infinity] /
    [-Infinity]; the action returns before the loop on an empty node list, so
    the first node replaces the infinite start values. *)
Definition boundsOf (first : Node.t) (rest : list Node.t) : Q * Q * Q * Q :=
  fold_left
    (fun '(minX, minY, maxX, maxY) node =>
       (Qmin minX (Node.x node),
        Qmin minY (Node.y node),
        Qmax maxX (Node.x node + Node.width node),
        Qmax maxY (Node.y node + Node.height node)))
    rest
    (Node.x first, Node.y first,
     Node.x first + Node.width first, Node.y first + Node.height first).

Definition fitToScreen (canvasSize : Size.t) (s : t) : t :=
  match nodes s with
  | [] => s
  | first :: rest =>
      let '(minX0, minY0, maxX0, maxY0) := boundsOf first rest in
      let padding := 100 in
      let minX := minX0 - padding in
      let minY := minY0 - padding in
      let maxX := maxX0 + padding in
      let maxY := maxY0 + padding in
      let contentWidth := maxX - minX in
      let contentHeight := maxY - minY in
      let scaleX := Size.width canvasSize / contentWidth in
      let scaleY := Size.height canvasSize / contentHeight in
      let scale := Qmin (Qmin scaleX scaleY) 2 in
      let x := (Size.width canvasSize - contentWidth * scale) / 2 - minX * scale in
      let y := (Size.height canvasSize - contentHeight * scale) / 2 - minY * scale in
      set_transform (CanvasTransform.mk x y scale) s
  end.

Definition zoomIn (s : t) : t :=
  let newScale := Qmin (CanvasTransform.scale (transform s) * (12 # 10)) 3 in
  set_transform
    (CanvasTransform.mk (CanvasTransform.x (transform s))
                        (CanvasTransform.y (transform s)) newScale)
    s.

Definition zoomOut (s : t) : t :=
  let newScale := Qmax (CanvasTransform.scale (transform s) / (12 # 10)) (1 # 10) in
  set_transform
    (CanvasTransform.mk (CanvasTransform.x (transform s))
                        (CanvasTransform.y (transform s)) newScale)
    s.


Definition setConnecting (isConnecting : bool) (fromNodeId : option string) (s : t) : t :=
  set_connecting isConnecting (truthy fromNodeId) s.

(** *** History actions *)

Definition undo (s : t) : t :=
  match rev (History.past (history s)) with
  | [] => s
  | previous :: _ =>
      let newPast := removelast (History.past (history s)) in
      set_history
        (History.mk newPast
                    (History.present (history s))
                    (History.present (history s) :: History.future (history s)))
        (set_graph previous s)
  end.

Definition redo (s : t) : t :=
  match History.future (history s) with
  | [] => s
  | next :: newFuture =>
      set_history
        (History.mk (History.past (history s) ++ [History.present (history s)])
                    next
                    newFuture)
        (set_graph next s)
  end.

Definition saveToHistory (s : t) : t :=
  set_history
    (History.mk (History.past (history s) ++ [History.present (history s)])
                (graph s)
                [])
    s.

(** *** Selection box *)

Definition startSelectionBox (x y : Q) (s : t) : t :=
  set_selectionBox (SelectionBox.mk x y x y true) s.

Definition updateSelectionBox (x y : Q) (s : t) : t :=
  set_selectionBox
    (SelectionBox.mk (SelectionBox.startX (selectionBox s))
                     (SelectionBox.startY (selectionBox s)) x y
                     (SelectionBox.isActive (selectionBox s)))
    s.

Definition endSelectionBox (s : t) : t :=
  let b := selectionBox s in
  let minX := Qmin (SelectionBox.startX b) (SelectionBox.endX b) in
  let minY := Qmin (SelectionBox.startY b) (SelectionBox.endY b) in
  let maxX := Qmax (SelectionBox.startX b) (SelectionBox.endX b) in
  let maxY := Qmax (SelectionBox.startY b) (SelectionBox.endY b) in
  let selectedNodes :=
    filter (fun node =>
              let nodeLeft := Node.x node in
              let nodeTop := Node.y node in
              let nodeRight := Node.x node + Node.width node in
              let nodeBottom := Node.y node + Node.height node in
              Qltb nodeLeft maxX && Qltb minX nodeRight
              && Qltb nodeTop maxY && Qltb minY nodeBottom)
           (nodes s) in
  set_nodes
    (map (fun node =>
            Node.set_selected
              (existsb (fun sel => String.eqb (Node.id sel) (Node.id node)) selectedNodes)
              node)
         (nodes s))
    (set_selection None (map Node.id selectedNodes)
       (set_selectionBox
          (SelectionBox.mk (SelectionBox.startX b) (SelectionBox.startY b)
                           (SelectionBox.endX b) (SelectionBox.endY b) false)
          s)).

(** *** Collaboration setters *)


(** *** Import *)

(** What [JSON.parse(data)] hands to [importCanvas]. [JSON.parse] is a
    run-time built-in, so its outcome is the input of the model:
    - [ParseError]: the text is not JSON, [JSON.parse] throws;
    - [ParsedNull]: the text is [null], every property read throws;
    - [ParsedObject]: an object (or a number, string or boolean, whose
      property reads all give [undefined]) with the five fields read by the
      action.

    The action reads each field through [||], so a field that is absent and
    a field that is present with a falsy value ([null], [false], [0], the
    empty string) are the same to it: both are [None] for [connections],
    [groups] and [transform] (the empty [canvasName] is a string and goes
    through [truthy]), and [NodesAbsent] for [nodes].
    A truthy field is taken to be of its declared type, except [nodes], the
    one field the action calls a method on:
    - [NodesAbsent]: [nodes] is absent or falsy, [parsed.nodes || []] is the
      empty array;
    - [NodesArray l]: [nodes] is an array; an element is a node object
      ([Some]) or [null] ([None]), and reading [node.createdAt] of a [null]
      element throws (an element that is a number, a string or a boolean
      does not throw and gives an object without the fields of a node; like
      the other ill-typed fields it is not represented);
    - [NotAnArray]: [nodes] is truthy and no array (an object, a non-zero
      number, a non-empty string, [true]); it has no [map] method and the
      call throws. *)
Inductive ParsedNodes :=
| NodesAbsent
| NodesArray (l : list (option Node.t))
| NotAnArray.

Module Parsed.
Record t := mk {
    canvasName : option string;
    nodes : ParsedNodes;
    connections : option (list Connection.t);
    groups : option (list NodeGroup.t);
    transform : option CanvasTransform.t
  }.
End Parsed.

Inductive JsonResult :=
| ParseError
| ParsedNull
| ParsedObject (p : Parsed.t).

(** The callback of [map] in [importCanvas]; [None] when it throws (the
    element is [null]). *)
Definition withTimestamps (now : Date) (node : option Node.t) : option Node.t :=
  match node with
  | None => None
  | Some node =>
      Some (Node.set_stamps (Some (orElse (Node.createdAt node) now))
                            (Some (orElse (Node.updatedAt node) now)) node)
  end.

(** [Array.prototype.map] with a callback that may throw: the elements are
    visited in order and the first exception ends the call. *)
Fixpoint mapThrowing {A B : Type} (f : A -> option B) (l : list A) : option (list B) :=
  match l with
  | [] => Some []
  | a :: rest =>
      match f a with
      | None => None
      | Some b =>
          match mapThrowing f rest with
          | None => None
          | Some bs => Some (b :: bs)
          end
      end
  end.

(** The body of the [try] block once [parsed] is an object; [None] when it
    throws before [set]. *)
Definition importParsed (now : Date) (parsed : Parsed.t) (s : t) : option t :=
  match
    match Parsed.nodes parsed with
    | NodesAbsent => mapThrowing (withTimestamps now) []
    | NodesArray l => mapThrowing (withTimestamps now) l
    | NotAnArray => None
    end
  with
  | None => None
  | Some nodesWithTimestamps =>
      Some
        (mk (orElse (truthy (Parsed.canvasName parsed)) "Untitled Canvas")
            nodesWithTimestamps
            (orElse (Parsed.connections parsed) [])
            (orElse (Parsed.groups parsed) [])
            (orElse (Parsed.transform parsed) (CanvasTransform.mk 0 0 1))
            None []
            (selectionBox s) (isDragging s) (isConnecting s)
            (connectingFromNodeId s) (history s) (settings s)
            None [] None AISuggestions.cleared)
  end.

(** [importCanvas]: an exception inside [try] is caught and logged, and the
    state is the one before the call. *)
Definition importCanvas (now : Date) (data : JsonResult) (s : t) : t :=
  match data with
  | ParseError => s
  | ParsedNull => s
  | ParsedObject parsed =>
      match importParsed now parsed s with
      | Some s' => s'
      | None => s
      end
  end.

(** ** Geometry of the canvas component (InfiniteCanvas.tsx) *)

Module Point.
Record t := mk { x : Q; y : Q }.
End Point.

(** [canvasRef.current?.getBoundingClientRect()]: [None] while the element is
    not mounted. *)
Module Rect.
Record t := mk { left : Q; top : Q }.
End Rect.

Module WheelEvent.
Record t := mk {
    ctrlKey : bool;
    metaKey : bool;
    clientX : Q;
    clientY : Q;
    deltaX : Q;
    deltaY : Q
  }.
End WheelEvent.

Definition screenToCanvas (rect : option Rect.t) (transform : CanvasTransform.t)
           (screenX screenY : Q) : Point.t :=
  match rect with
  | None => Point.mk 0 0
  | Some r =>
      Point.mk
        ((screenX - Rect.left r - CanvasTransform.x transform)
         / CanvasTransform.scale transform)
        ((screenY - Rect.top r - CanvasTransform.y transform)
         / CanvasTransform.scale transform)
  end.

(** The zoom branch of [handleWheel] from the mouse position relative to the
    canvas and the zoom factor [delta]: the patch handed to [setTransform]. *)
Definition zoomAtPoint (transform : CanvasTransform.t) (mouseX mouseY delta : Q)
  : TransformPatch.t :=
  let newScale := Qmax (1 # 10) (Qmin 3 (CanvasTransform.scale transform * delta)) in
  let worldMouseX := (mouseX - CanvasTransform.x transform)
                     / CanvasTransform.scale transform in
  let worldMouseY := (mouseY - CanvasTransform.y transform)
                     / CanvasTransform.scale transform in
  let newX := mouseX - worldMouseX * newScale in
  let newY := mouseY - worldMouseY * newScale in
  TransformPatch.mk (Some newX) (Some newY) (Some newScale).

(** [handleWheel]; [transform] is the store's transform the callback closed
    over. *)
Definition handleWheel (rect : option Rect.t) (e : WheelEvent.t) (s : t) : t :=
  let transform := CanvasState.transform s in
  if WheelEvent.ctrlKey e || WheelEvent.metaKey e then
    match rect with
    | None => s
    | Some r =>
        let mouseX := WheelEvent.clientX e - Rect.left r in
        let mouseY := WheelEvent.clientY e - Rect.top r in
        let delta := if Qltb 0 (WheelEvent.deltaY e) then 9 # 10 else 11 # 10 in
        setTransform (zoomAtPoint transform mouseX mouseY delta) s
    end
  else
    setTransform
      (TransformPatch.mk (Some (CanvasTransform.x transform - WheelEvent.deltaX e))
                         (Some (CanvasTransform.y transform - WheelEvent.deltaY e))
                         None)
      s.

(** ** Force-directed layout ([autoOrganizeNodes]) *)

(** [interface NodePhysics] *)
Module Physics.
Record t := mk {
    id : string;
    x : Q;
    y : Q;
    vx : Q;
    vy : Q;
    width : Q;
    height : Q;
    groupId : option string;
    mass : Q
  }.

Definition set_v (vx' vy' : Q) (p : t) : t :=
    mk (id p) (x p) (y p) vx' vy' (width p) (height p) (groupId p) (mass p).

Definition set_pos (x' y' : Q) (p : t) : t :=
    mk (id p) x' y' (vx p) (vy p) (width p) (height p) (groupId p) (mass p).

  (** The same numbers in lowest terms. *)
Definition reduced (p : t) : t :=
    mk (id p) (Qred (x p)) (Qred (y p)) (Qred (vx p)) (Qred (vy p))
       (width p) (height p) (groupId p) (mass p).
End Physics.

(** An entry of [groupCenters]. *)
Module Center.
Record t := mk { x : Q; y : Q; count : nat }.
End Center.

(** An entry of [finalNodes]: the node id and its top-left position. *)
Module Final.
Record t := mk { id : string; x : Q; y : Q }.

Definition reduced (f : t) : t := mk (id f) (Qred (x f)) (Qred (y f)).
End Final.

Definition REPULSION_STRENGTH : Q := 50000.
Definition ATTRACTION_STRENGTH : Q := 1 # 100.
Definition DAMPING : Q := 85 # 100.
Definition MIN_DISTANCE : Q := 20.
Definition SPRING_LENGTH : Q := 150.
Definition GROUP_ATTRACTION : Q := 5 # 1000.
Definition MAX_ITERATIONS : nat := 300.
Definition CONVERGENCE_THRESHOLD : Q := 5 # 10.
Definition MAX_VELOCITY : Q := 50.
Definition maxOverlapIterations : nat := 50.

(** [Math.round]: the nearest integer, halves upwards. *)
Definition Math_round (q : Q) : Q := inject_Z (Qfloor (q + (1 # 2))).

(** [l[i] = f(l[i])] for an index inside the list. *)
Fixpoint updateAt {A : Type} (i : nat) (f : A -> A) (l : list A) : list A :=
  match l, i with
  | [], _ => []
  | a :: r, O => f a :: r
  | a :: r, S i' => a :: updateAt i' f r
  end.

(** [for (i = 0; i < n; i++) for (j = i + 1; j < n; j++) body(i, j)] *)
Definition forEachPair {S : Type} (n : nat) (body : nat -> nat -> S -> S) (st : S) : S :=
  fold_left
    (fun st i => fold_left (fun st j => body i j st) (seq (i + 1) (n - (i + 1))) st)
    (seq 0 n) st.

(** [map.forEach] / a sequence of statements over a list, threading [st]. *)
Definition forEach {A S : Type} (l : list A) (body : A -> S -> S) (st : S) : S :=
  fold_left (fun st a => body a st) l st.

(** [Map.prototype.set] keeps the place of a key already present. *)
Fixpoint mapSet {K V : Type} (eqb : K -> K -> bool) (k : K) (v : V)
         (m : list (K * V)) : list (K * V) :=
  match m with
  | [] => [(k, v)]
  | (k', v') :: r => if eqb k' k then (k', v) :: r else (k', v') :: mapSet eqb k v r
  end.

Definition mapGet {K V : Type} (eqb : K -> K -> bool) (k : K)
           (m : list (K * V)) : option V :=
  match find (fun kv => eqb (fst kv) k) m with
  | Some kv => Some (snd kv)
  | None => None
  end.

(** [nodePhysics]: a [Map] keyed by node id, kept as the list of its values in
    insertion order (each value carries its key). *)
Fixpoint physicsSet (p : Physics.t) (m : list Physics.t) : list Physics.t :=
  match m with
  | [] => [p]
  | q :: r => if String.eqb (Physics.id q) (Physics.id p) then p :: r
              else q :: physicsSet p r
  end.

Definition physicsGet (id : string) (m : list Physics.t) : option Physics.t :=
  find (fun p => String.eqb (Physics.id p) id) m.

(** Mutation of the object stored under [id]. *)
Fixpoint physicsUpdate (id : string) (f : Physics.t -> Physics.t)
         (m : list Physics.t) : list Physics.t :=
  match m with
  | [] => []
  | q :: r => if String.eqb (Physics.id q) id then f q :: r
              else q :: physicsUpdate id f r
  end.

(** [nodesByGroup]: [if (!has(g)) set(g, []); get(g).push(node)]. *)
Fixpoint groupPush (g : option string) (node : Node.t)
         (m : list (option string * list Node.t)) : list (option string * list Node.t) :=
  match m with
  | [] => [(g, [node])]
  | (g', l) :: r => if opt_eqb g' g then (g', (l ++ [node])%list) :: r
                    else (g', l) :: groupPush g node r
  end.

Definition sumQ {A : Type} (f : A -> Q) (l : list A) : Q :=
  fold_left (fun sum a => sum + f a) l 0.

Definition lengthQ {A : Type} (l : list A) : Q := inject_Z (Z.of_nat (List.length l)).

(** The guard [groupId && groupNodes.length > 1]. *)
Definition cohesive (entry : option string * list Node.t) : option string :=
  match truthy (fst entry) with
  | Some g => if (1 <? List.length (snd entry))%nat then Some g else None
  | None => None
  end.

Section Layout.

  (** [Math.sqrt] *)
Variable sqrt : Q -> Q.

Definition initPhysics (node : Node.t) : Physics.t :=
    Physics.mk (Node.id node)
               (Node.x node + Node.width node / 2)
               (Node.y node + Node.height node / 2)
               0 0
               (Node.width node) (Node.height node) (Node.groupId node)
               (sqrt (Node.width node * Node.height node) / 10).

Definition initGroupCenters (nodesByGroup : list (option string * list Node.t))
    : list (string * Center.t) :=
    forEach nodesByGroup
      (fun entry centers =>
         match cohesive entry with
         | Some groupId =>
             let groupNodes := snd entry in
             let centerX := sumQ (fun node => Node.x node + Node.width node / 2) groupNodes
                            / lengthQ groupNodes in
             let centerY := sumQ (fun node => Node.y node + Node.height node / 2) groupNodes
                            / lengthQ groupNodes in
             mapSet String.eqb groupId (Center.mk centerX centerY (List.length groupNodes)) centers
         | None => centers
         end)
      [].

  (** Velocity damping at the start of an iteration. *)
Definition damp (ps : list Physics.t) : list Physics.t :=
    map (fun physics =>
           Physics.set_v (Physics.vx physics * DAMPING) (Physics.vy physics * DAMPING)
                         physics)
        ps.

  (** The body of the repulsion loop for the pair [(i, j)]. *)
Definition repel (i j : nat) (ps : list Physics.t) : list Physics.t :=
    match nth_error ps i, nth_error ps j with
    | Some nodeA, Some nodeB =>
        let dx := Physics.x nodeB - Physics.x nodeA in
        let dy := Physics.y nodeB - Physics.y nodeA in
        let distance := sqrt (dx * dx + dy * dy) in
        if Qltb 0 distance then
          let minRequiredDistance :=
            (Physics.width nodeA + Physics.width nodeB) / 2
            + (Physics.height nodeA + Physics.height nodeB) / 2 + 30 in
          let repulsionForce :=
            if Qltb distance minRequiredDistance
            then REPULSION_STRENGTH / (distance * distance) * 2
            else REPULSION_STRENGTH / (distance * distance) in
          let fx := (dx / distance) * repulsionForce in
          let fy := (dy / distance) * repulsionForce in
          updateAt j
            (fun b => Physics.set_v (Physics.vx b + fx / Physics.mass b)
                                    (Physics.vy b + fy / Physics.mass b) b)
            (updateAt i
               (fun a => Physics.set_v (Physics.vx a - fx / Physics.mass a)
                                       (Physics.vy a - fy / Physics.mass a) a)
               ps)
        else ps
    | _, _ => ps
    end.

  (** The spring force of one connection. *)
Definition spring (connection : Connection.t) (ps : list Physics.t) : list Physics.t :=
    match physicsGet (Connection.fromNodeId connection) ps,
          physicsGet (Connection.toNodeId connection) ps with
    | Some nodeA, Some nodeB =>
        let dx := Physics.x nodeB - Physics.x nodeA in
        let dy := Physics.y nodeB - Physics.y nodeA in
        let distance := sqrt (dx * dx + dy * dy) in
        if Qltb 0 distance then
          let springForce := ATTRACTION_STRENGTH * (distance - SPRING_LENGTH) in
          let fx := (dx / distance) * springForce in
          let fy := (dy / distance) * springForce in
          physicsUpdate (Connection.toNodeId connection)
            (fun b => Physics.set_v (Physics.vx b - fx) (Physics.vy b - fy) b)
            (physicsUpdate (Connection.fromNodeId connection)
               (fun a => Physics.set_v (Physics.vx a + fx) (Physics.vy a + fy) a)
               ps)
        else ps
    | _, _ => ps
    end.

  (** The pull of one node towards its group centre. *)
Definition pull (groupCenter : Center.t) (node : Node.t) (ps : list Physics.t)
    : list Physics.t :=
    match physicsGet (Node.id node) ps with
    | Some physics =>
        let dx := Center.x groupCenter - Physics.x physics in
        let dy := Center.y groupCenter - Physics.y physics in
        let distance := sqrt (dx * dx + dy * dy) in
        if Qltb 0 distance then
          let groupForce := GROUP_ATTRACTION * distance in
          physicsUpdate (Node.id node)
            (fun p => Physics.set_v (Physics.vx p + (dx / distance) * groupForce)
                                    (Physics.vy p + (dy / distance) * groupForce) p)
            ps
        else ps
    | None => ps
    end.

Definition cohesion (nodesByGroup : list (option string * list Node.t))
             (groupCenters : list (string * Center.t)) (ps : list Physics.t)
    : list Physics.t :=
    forEach nodesByGroup
      (fun entry ps =>
         match cohesive entry with
         | Some groupId =>
             match mapGet String.eqb groupId groupCenters with
             | Some groupCenter => forEach (snd entry) (pull groupCenter) ps
             | None => ps
             end
         | None => ps
         end)
      ps.

  (** Velocity cap and position update of one node. *)
Definition integrate (physics : Physics.t) : Physics.t :=
    let velocity := sqrt (Physics.vx physics * Physics.vx physics
                          + Physics.vy physics * Physics.vy physics) in
    let capped :=
      if Qltb MAX_VELOCITY velocity
      then Physics.set_v ((Physics.vx physics / velocity) * MAX_VELOCITY)
                         ((Physics.vy physics / velocity) * MAX_VELOCITY) physics
      else physics in
    Physics.set_pos (Physics.x capped + Physics.vx capped)
                    (Physics.y capped + Physics.vy capped) capped.

Definition updateGroupCenters (nodesByGroup : list (option string * list Node.t))
             (ps : list Physics.t) (groupCenters : list (string * Center.t))
    : list (string * Center.t) :=
    forEach nodesByGroup
      (fun entry centers =>
         match cohesive entry with
         | Some groupId =>
             let nodePhysicsForGroup :=
               flat_map (fun node => match physicsGet (Node.id node) ps with
                                     | Some p => [p]
                                     | None => []
                                     end)
                        (snd entry) in
             if (0 <? List.length nodePhysicsForGroup)%nat then
               let centerX := sumQ Physics.x nodePhysicsForGroup
                              / lengthQ nodePhysicsForGroup in
               let centerY := sumQ Physics.y nodePhysicsForGroup
                              / lengthQ nodePhysicsForGroup in
               mapSet String.eqb groupId
                      (Center.mk centerX centerY (List.length nodePhysicsForGroup)) centers
             else centers
         | None => centers
         end)
      groupCenters.

  (** The state of the simulation loop. *)
Record Sim := mkSim {
    nodePhysics : list Physics.t;
    groupCenters : list (string * Center.t);
    iteration : nat;
    converged : bool
  }.

  (** One turn of the [while] loop. Numbers are put in lowest terms at its
      end, which leaves their values as they are. *)
Definition simStep (relevantConnections : list Connection.t)
             (nodesByGroup : list (option string * list Node.t)) (sim : Sim) : Sim :=
    let ps0 := damp (nodePhysics sim) in
    let ps1 := forEachPair (List.length ps0) repel ps0 in
    let ps2 := forEach relevantConnections spring ps1 in
    let ps3 := cohesion nodesByGroup (groupCenters sim) ps2 in
    let ps4 := map integrate ps3 in
    let totalMovement :=
      sumQ (fun physics => Qabs (Physics.vx physics) + Qabs (Physics.vy physics)) ps4 in
    let averageMovement := totalMovement / lengthQ ps4 in
    mkSim (map Physics.reduced ps4)
          (updateGroupCenters nodesByGroup ps4 (groupCenters sim))
          (S (iteration sim))
          (if Qltb averageMovement CONVERGENCE_THRESHOLD then true else converged sim).

  (** [while (iteration < MAX_ITERATIONS && !converged)], at most [fuel]
      turns. *)
Fixpoint simulate (fuel : nat) (relevantConnections : list Connection.t)
           (nodesByGroup : list (option string * list Node.t)) (sim : Sim) : Sim :=
    match fuel with
    | O => sim
    | S fuel' =>
        if (iteration sim <? MAX_ITERATIONS)%nat && negb (converged sim)
        then simulate fuel' relevantConnections nodesByGroup
                      (simStep relevantConnections nodesByGroup sim)
        else sim
    end.

End Layout.

(** The body of the overlap loop for the pair [(i, j)] of [finalNodesArray];
    the positions are the live objects of [finalNodes], so a move is seen by
    the pairs that follow. The second component is [hasOverlaps].
    [nodesToOrganize.find(...)!] always finds the node, every id of
    [finalNodes] being the id of a node to organize. *)
Definition separate (nodesToOrganize : list Node.t) (i j : nat)
           (st : list Final.t * bool) : list Final.t * bool :=
  let '(finalNodes, hasOverlaps) := st in
  match nth_error finalNodes i, nth_error finalNodes j with
  | Some posA, Some posB =>
      match findNode (Final.id posA) nodesToOrganize,
            findNode (Final.id posB) nodesToOrganize with
      | Some nodeA, Some nodeB =>
          let overlapX :=
            Qmax 0 (Qmin (Final.x posA + Node.width nodeA) (Final.x posB + Node.width nodeB)
                    - Qmax (Final.x posA) (Final.x posB)) in
          let overlapY :=
            Qmax 0 (Qmin (Final.y posA + Node.height nodeA) (Final.y posB + Node.height nodeB)
                    - Qmax (Final.y posA) (Final.y posB)) in
          if Qltb 0 overlapX && Qltb 0 overlapY then
            let centerAX := Final.x posA + Node.width nodeA / 2 in
            let centerAY := Final.y posA + Node.height nodeA / 2 in
            let centerBX := Final.x posB + Node.width nodeB / 2 in
            let centerBY := Final.y posB + Node.height nodeB / 2 in
            let moveX (d : Q) (f : Final.t) := Final.mk (Final.id f) (Final.x f + d) (Final.y f) in
            let moveY (d : Q) (f : Final.t) := Final.mk (Final.id f) (Final.x f) (Final.y f + d) in
            if Qltb overlapX overlapY then
              let moveDistance := (overlapX + 20) / 2 in
              if Qltb centerAX centerBX
              then (updateAt j (moveX moveDistance)
                      (updateAt i (moveX (- moveDistance)) finalNodes), true)
              else (updateAt j (moveX (- moveDistance))
                      (updateAt i (moveX moveDistance) finalNodes), true)
            else
              let moveDistance := (overlapY + 20) / 2 in
              if Qltb centerAY centerBY
              then (updateAt j (moveY moveDistance)
                      (updateAt i (moveY (- moveDistance)) finalNodes), true)
              else (updateAt j (moveY (- moveDistance))
                      (updateAt i (moveY moveDistance) finalNodes), true)
          else st
      | _, _ => st
      end
  | _, _ => st
  end.

(** The state of the overlap-resolution loop. *)
Record Resolve := mkResolve {
  finalNodes : list Final.t;
  hasOverlaps : bool;
  overlapResolutionIterations : nat
}.

(** One turn of the overlap loop; positions are put in lowest terms at its
    end. *)
Definition resolveStep (nodesToOrganize : list Node.t) (r : Resolve) : Resolve :=
  let '(finals, overlaps) :=
    forEachPair (List.length (finalNodes r)) (separate nodesToOrganize)
                (finalNodes r, false) in
  mkResolve (map Final.reduced finals) overlaps (S (overlapResolutionIterations r)).

(** [while (hasOverlaps && overlapResolutionIterations < maxOverlapIterations)],
    at most [fuel] turns. *)
Fixpoint resolveOverlaps (fuel : nat) (nodesToOrganize : list Node.t) (r : Resolve)
  : Resolve :=
  match fuel with
  | O => r
  | S fuel' =>
      if hasOverlaps r && (overlapResolutionIterations r <? maxOverlapIterations)%nat
      then resolveOverlaps fuel' nodesToOrganize (resolveStep nodesToOrganize r)
      else r
  end.

(** [organizedNodes[findIndex(n => n.id === nodeId)] = {...}]: the first node
    with the id, if any. *)
Fixpoint placeNode (now : Date) (f : Final.t) (l : list Node.t) : list Node.t :=
  match l with
  | [] => []
  | n :: r =>
      if String.eqb (Node.id n) (Final.id f)
      then Node.moved (Math_round (Final.x f)) (Math_round (Final.y f)) now n :: r
      else n :: placeNode now f r
  end.

(** The outcome of the two loops, before it is written back. *)
Definition layout (sqrt : Q -> Q) (nodesToOrganize : list Node.t)
           (connections : list Connection.t) : Sim * Resolve :=
  let relevantConnections :=
    filter (fun conn =>
              existsb (fun n => String.eqb (Node.id n) (Connection.fromNodeId conn))
                      nodesToOrganize
              && existsb (fun n => String.eqb (Node.id n) (Connection.toNodeId conn))
                         nodesToOrganize)
           connections in
  let nodesByGroup :=
    forEach nodesToOrganize (fun node m => groupPush (Node.groupId node) node m) [] in
  let nodePhysics0 :=
    forEach nodesToOrganize (fun node m => physicsSet (initPhysics sqrt node) m) [] in
  let sim :=
    simulate sqrt MAX_ITERATIONS relevantConnections nodesByGroup
             (mkSim nodePhysics0 (initGroupCenters nodesByGroup) 0 false) in
  let finalNodes0 :=
    map (fun physics =>
           Final.mk (Physics.id physics)
                    (Physics.x physics - Physics.width physics / 2)
                    (Physics.y physics - Physics.height physics / 2))
        (nodePhysics sim) in
  (sim, resolveOverlaps maxOverlapIterations nodesToOrganize
                        (mkResolve finalNodes0 true 0)).

Definition autoOrganizeNodes (sqrt : Q -> Q) (now : Date) (s : t) : t :=
  let snapshot := graph s in
  let selection :=
    if (0 <? List.length (selectedNodeIds s))%nat
    then Some (filter (fun node => includes (selectedNodeIds s) (Node.id node)) (nodes s))
    else match truthy (selectedNodeId s) with
         | Some id => Some (filter (fun node => String.eqb (Node.id node) id) (nodes s))
         | None => None
         end in
  match selection with
  | None => s
  | Some [] => s
  | Some nodesToOrganize =>
      let '(_, resolved) := layout sqrt nodesToOrganize (connections s) in
      let organizedNodes :=
        forEach (finalNodes resolved) (placeNode now) (nodes s) in
      set_history
        (History.mk (History.past (history s) ++ [snapshot])
                    (History.present (history s))
                    [])
        (set_nodes organizedNodes s)
  end.

(** [Math.sqrt] on rationals, rounded down to a multiple of [2^-52]: exact on
    the squares of such multiples, in particular [Math_sqrt 0 = 0]. *)
Definition Math_sqrt (q : Q) : Q :=
  Z.sqrt (Qnum q * 2 ^ 104 / Zpos (Qden q)) # (2 ^ 52).

(** ** Further store actions (canvasStore.ts) *)

Definition addNodeToGroup (nodeId groupId : string) (s : t) : t :=
  match find (fun g => String.eqb (NodeGroup.id g) groupId) (groups s) with
  | None => s
  | Some _ =>
      set_graph
        (Snapshot.mk
           (map (fun node => if String.eqb (Node.id node) nodeId
                             then Node.set_groupId (Some groupId) node else node)
                (nodes s))
           (connections s)
           (map (fun g =>
                   if String.eqb (NodeGroup.id g) groupId
                   then NodeGroup.set_nodes (uniq [] (NodeGroup.nodes g ++ [nodeId])) g
                   else NodeGroup.set_nodes
                          (filter (fun id => negb (String.eqb id nodeId))
                                  (NodeGroup.nodes g)) g)
                (groups s)))
        s
  end.


(** [{...node, tags, updatedAt: new Date()}] *)
Definition withTags (l : list string) (u : Date) (n : Node.t) : Node.t :=
  Node.mk (Node.id n) (Node.x n) (Node.y n) (Node.width n) (Node.height n)
          (Node.content n) (Node.groupId n) (Node.color n) (Node.selected n)
          (Node.isNew n) (Node.createdAt n) (Some u) (Node.comment n) (Some l).



(** [arr.indexOf(t)]: the first position of [t], counted from [i]; [None]
    stands for -1. *)
Fixpoint indexOfFrom (t : string) (arr : list string) (i : nat) : option nat :=
  match arr with
  | [] => None
  | a :: r => if String.eqb a t then Some i else indexOfFrom t r (S i)
  end.

Definition indexOf (t : string) (arr : list string) : option nat :=
  indexOfFrom t arr 0.

(** [arr.filter((t, i, arr) => arr.indexOf(t) === i)] *)
Definition firstOccurrences (arr : list string) : list string :=
  map snd
      (filter (fun it => match indexOf (snd it) arr with
                         | Some k => Nat.eqb k (fst it)
                         | None => false
                         end)
              (combine (seq 0 (List.length arr)) arr)).

Definition addTagToNode (now : Date) (nodeId tag : string) (s : t) : t :=
  set_nodes
    (map (fun node =>
            if String.eqb (Node.id node) nodeId
            then withTags (firstOccurrences (orElse (Node.tags node) [] ++ [tag])) now node
            else node)
         (nodes s))
    s.

Definition removeTagFromNode (now : Date) (nodeId tag : string) (s : t) : t :=
  set_nodes
    (map (fun node =>
            if String.eqb (Node.id node) nodeId
            then withTags (filter (fun t => negb (String.eqb t tag))
                                  (orElse (Node.tags node) [])) now node
            else node)
         (nodes s))
    s.

(** [{...s, activeTagFilter, hiddenNodes}] *)
Definition set_filter (active : option string) (hidden : list string) (s : t) : t :=
  mk (canvasName s) (nodes s) (connections s) (groups s) (transform s)
     (selectedNodeId s) (selectedNodeIds s) (selectionBox s) (isDragging s)
     (isConnecting s) (connectingFromNodeId s) (history s) (settings s)
     active hidden (highlightedGroupId s) (aiSuggestions s).

(** [node.tags?.includes(tag)], [undefined] counting as false. *)
Definition hasTag (tag : string) (node : Node.t) : bool :=
  match Node.tags node with
  | Some l => includes l tag
  | None => false
  end.

(** [hiddenNodes] is a [Set] of ids, kept as the list of its elements in
    insertion order. *)
Definition setTagFilter (tag : option string) (s : t) : t :=
  set_filter tag
    (uniq []
       (match truthy tag with
        | Some tg => map Node.id (filter (fun node => negb (hasTag tg node)) (nodes s))
        | None => []
        end))
    s.

Definition clearTagFilter (s : t) : t := set_filter None [] s.

Definition getVisibleNodes (s : t) : list Node.t :=
  match truthy (activeTagFilter s) with
  | None => nodes s
  | Some _ => filter (fun node => negb (includes (hiddenNodes s) (Node.id node))) (nodes s)
  end.

(** [{...s, aiSuggestions: {...s.aiSuggestions, connections}}] *)
Definition set_suggestedConnections (l : list ConnectionSuggestion.t) (s : t) : t :=
  mk (canvasName s) (nodes s) (connections s) (groups s) (transform s)
     (selectedNodeId s) (selectedNodeIds s) (selectionBox s) (isDragging s)
     (isConnecting s) (connectingFromNodeId s) (history s) (settings s)
     (activeTagFilter s) (hiddenNodes s) (highlightedGroupId s)
     (AISuggestions.mk l (AISuggestions.groupSummary (aiSuggestions s))
                       (AISuggestions.groupNames (aiSuggestions s))
                       (AISuggestions.isLoading (aiSuggestions s))
                       (AISuggestions.error (aiSuggestions s))).

(** The filter both suggestion actions apply: the suggestions for another
    ordered pair stay. *)
Definition otherSuggestion (suggestion s' : ConnectionSuggestion.t) : bool :=
  negb (String.eqb (ConnectionSuggestion.nodeId1 s') (ConnectionSuggestion.nodeId1 suggestion))
  || negb (String.eqb (ConnectionSuggestion.nodeId2 s') (ConnectionSuggestion.nodeId2 suggestion)).

(** [applyConnectionSuggestion]; the toast is not part of the store. *)
Definition applyConnectionSuggestion (now : Date) (suggestion : ConnectionSuggestion.t)
           (s : t) : t :=
  match findNode (ConnectionSuggestion.nodeId1 suggestion) (nodes s),
        findNode (ConnectionSuggestion.nodeId2 suggestion) (nodes s) with
  | Some _, Some _ =>
      let s1 := addConnection now (ConnectionSuggestion.nodeId1 suggestion)
                              (ConnectionSuggestion.nodeId2 suggestion) None None s in
      set_suggestedConnections
        (filter (otherSuggestion suggestion)
                (AISuggestions.connections (aiSuggestions s1)))
        s1
  | _, _ => s
  end.

Definition dismissConnectionSuggestion (suggestion : ConnectionSuggestion.t) (s : t) : t :=
  set_suggestedConnections
    (filter (otherSuggestion suggestion)
            (AISuggestions.connections (aiSuggestions s)))
    s.

(** ** Anchors and connection completion (InfiniteCanvas.tsx) *)

Definition getConnectionPoint (node : Node.t) (point : string) : Point.t :=
  if String.eqb point "top" then
    Point.mk (Node.x node + Node.width node / 2) (Node.y node)
  else if String.eqb point "right" then
    Point.mk (Node.x node + Node.width node) (Node.y node + Node.height node / 2)
  else if String.eqb point "bottom" then
    Point.mk (Node.x node + Node.width node / 2) (Node.y node + Node.height node)
  else if String.eqb point "left" then
    Point.mk (Node.x node) (Node.y node + Node.height node / 2)
  else
    Point.mk (Node.x node + Node.width node / 2) (Node.y node + Node.height node / 2).

Definition getBestTargetConnectionPoint (sourceNode targetNode : Node.t)
           (sourcePoint : string) : string :=
  let sourceCenterX := Node.x sourceNode + Node.width sourceNode / 2 in
  let sourceCenterY := Node.y sourceNode + Node.height sourceNode / 2 in
  let targetCenterX := Node.x targetNode + Node.width targetNode / 2 in
  let targetCenterY := Node.y targetNode + Node.height targetNode / 2 in
  let deltaX := targetCenterX - sourceCenterX in
  let deltaY := targetCenterY - sourceCenterY in
  if String.eqb sourcePoint "right" && Qltb 0 deltaX then "left"
  else if String.eqb sourcePoint "left" && Qltb deltaX 0 then "right"
  else if String.eqb sourcePoint "bottom" && Qltb 0 deltaY then "top"
  else if String.eqb sourcePoint "top" && Qltb deltaY 0 then "bottom"
  else if Qltb (Qabs deltaY) (Qabs deltaX)
       then (if Qltb 0 deltaX then "left" else "right")
       else (if Qltb 0 deltaY then "top" else "bottom").

(** [handleCompleteConnection]; [connectingFromPoint] is the component's own
    state, and [nodes], [isConnecting] and [connectingFromNodeId] are the
    store's values the component rendered with. Only the store is returned. *)
Definition handleCompleteConnection (now : Date) (connectingFromPoint : string)
           (targetNodeId : string) (s : t) : t :=
  match isConnecting s, truthy (connectingFromNodeId s) with
  | true, Some from =>
      if String.eqb from targetNodeId then s
      else
        let s1 :=
          match findNode from (nodes s), findNode targetNodeId (nodes s) with
          | Some sourceNode, Some targetNode =>
              let targetPoint :=
                getBestTargetConnectionPoint sourceNode targetNode connectingFromPoint in
              addConnection now from targetNodeId (Some connectingFromPoint)
                            (Some targetPoint) s
          | _, _ => s
          end in
        setConnecting false None s1
  | _, _ => s
  end.

(** [handleNodeClick]; [selectedNodeIds] is the value rendered with. *)
Definition handleNodeClick (now : Date) (connectingFromPoint : string)
           (nodeId : string) (s : t) : t :=
  let connectingFrom :=
    match truthy (connectingFromNodeId s) with
    | Some from => negb (String.eqb from nodeId)
    | None => false
    end in
  if isConnecting s && connectingFrom
  then handleCompleteConnection now connectingFromPoint nodeId s
  else if negb (isConnecting s) then
    let s1 := selectNode (Some nodeId) s in
    if (1 <? List.length (selectedNodeIds s))%nat
    then selectNode (Some nodeId) (clearSelection s1)
    else s1
  else s.

(** ** Dragging and resizing a node (CanvasNode.tsx) *)

(** A mouse position. *)
Module Mouse.
Record t := mk { clientX : Q; clientY : Q }.
End Mouse.

(** [resizeStart] *)
Module ResizeStart.
Record t := mk { x : Q; y : Q; width : Q; height : Q }.
End ResizeStart.



(** The size patch: [{ width: newWidth, height: newHeight }]. *)
Definition sizePatch (w h : Q) : NodePatch.t :=
  NodePatch.mk None None None (Some w) (Some h) None None None None None None None
               None None.


(** The [isResizing] branch of the [mousemove] listener. As in [dragMove],
    the quotients are JavaScript's for a scale other than 0 only: at scale 0
    JavaScript divides to [NaN] or an infinity, and [Math.max] of 100 and
    [NaN] is [NaN]. *)
Definition resizeMove (now : Date) (nodeId : string) (resizeStart : ResizeStart.t)
           (transform : CanvasTransform.t) (e : Mouse.t) (s : t) : t :=
  let deltaX := Mouse.clientX e - ResizeStart.x resizeStart in
  let deltaY := Mouse.clientY e - ResizeStart.y resizeStart in
  let newWidth := Qmax 100 (ResizeStart.width resizeStart
                            + deltaX / CanvasTransform.scale transform) in
  let newHeight := Qmax 60 (ResizeStart.height resizeStart
                            + deltaY / CanvasTransform.scale transform) in
  updateNode now nodeId (sizePatch newWidth newHeight) s.

(** * Vocabulary of the properties and example states *)

(** A connection between [a] and [b], in either direction. *)
Definition connected (a b : string) (conns : list Connection.t) : Prop :=
  exists c, In c conns
            /\ ((Connection.fromNodeId c = a /\ Connection.toNodeId c = b)
                \/ (Connection.fromNodeId c = b /\ Connection.toNodeId c = a)).

(** The state after one [addNode] on the initial canvas. *)
Definition oneNode : t := addNode 1 0 0 initialState.

(** Two nodes and a connection between them. *)
Definition linkedPair : t := addConnection 3 "node-1" "node-2" (Some "right") None
                               (addNode 2 10 10 (addNode 1 0 0 initialState)).

(** What a committing action does to the history: the old [present] goes on
    top of [past], the new live graph becomes [present], [future] is
    emptied. *)
Definition pushesPresent (s s' : t) : Prop :=
  History.past (history s')
  = (History.past (history s) ++ [History.present (history s)])%list
  /\ History.present (history s') = graph s'
  /\ History.future (history s') = [].

(** One snapshot of the previous live graph is pushed onto [past] and
    [future] is emptied. *)
Definition commitsPrevious (s s' : t) : Prop :=
  History.past (history s') = (History.past (history s) ++ [graph s])%list
  /\ History.future (history s') = [].


(** An id resolves when some node carries it. *)
Definition resolves (id : string) (ns : list Node.t) : Prop :=
  exists n, In n ns /\ Node.id n = id.

(** A member id of the group [gid] resolves to a node of that group. *)
Definition memberOf (gid id : string) (ns : list Node.t) : Prop :=
  exists n, In n ns /\ Node.id n = id /\ Node.groupId n = Some gid.

Definition referentialIntegrity (s : t) : Prop :=
  (forall c, In c (connections s) ->
             resolves (Connection.fromNodeId c) (nodes s)
             /\ resolves (Connection.toNodeId c) (nodes s))
  /\ (forall g m, In g (groups s) -> In m (NodeGroup.nodes g) ->
                  memberOf (NodeGroup.id g) m (nodes s)).

(** A persisted canvas without nodes whose only connection names two node
    ids that do not exist. *)
Definition danglingImport : Parsed.t :=
  Parsed.mk (Some "Broken") (NodesArray [])
            (Some [Connection.mk "conn-9" "ghost" "phantom" None None "#000000"])
            None None.

(** A parsed canvas whose [nodes] array holds one [null]. *)
Definition nullNodeImport : Parsed.t :=
  Parsed.mk (Some "Null node") (NodesArray [None]) None None None.

(** The zoom bounds of the canvas. *)
Definition scaleInBounds (tr : CanvasTransform.t) : Prop :=
  1 # 10 <= CanvasTransform.scale tr /\ CanvasTransform.scale tr <= 3.

(** Two default nodes, 100000 units apart. *)
Definition farApart : t := addNode 2 100000 0 (addNode 1 0 0 initialState).

(** A patch that only sets the scale, to 100. *)
Definition scale100 : TransformPatch.t := TransformPatch.mk None None (Some 100).

(** A wheel turn with the control key held, at (400, 300). *)
Definition ctrlWheel : WheelEvent.t := WheelEvent.mk true false 400 300 0 (-3).

(** The bounding boxes of two nodes overlap on both axes. *)
Definition overlap (a b : Node.t) : bool :=
  Qltb (Node.x a) (Node.x b + Node.width b)
  && Qltb (Node.x b) (Node.x a + Node.width a)
  && Qltb (Node.y a) (Node.y b + Node.height b)
  && Qltb (Node.y b) (Node.y a + Node.height a).

(** The geometry of the nodes of a state. *)
Definition boxes (s : t) : list (string * Q * Q * Q * Q) :=
  map (fun n => (Node.id n, Node.x n, Node.y n, Node.width n, Node.height n))
      (nodes s).

(** Patches that only resize. *)
Definition stretch : NodePatch.t :=
  NodePatch.mk None None None None (Some 10000) None None None None None None None
               None None.

Definition shrink : NodePatch.t :=
  NodePatch.mk None None None (Some 100) (Some 60) None None None None None None None
               None None.

(** A 200 x 10000 node and a 100 x 60 node (the smallest size the resize
    handle allows) with the same centre (100, 5000), both selected. *)
Definition nested : t :=
  selectMultipleNodes ["node-1"; "node-2"]
    (updateNode 4 "node-2" shrink
       (updateNode 3 "node-1" stretch
          (addNode 2 50 4970 (addNode 1 0 0 initialState)))).

(** Two default nodes at the same place, both selected. *)
Definition stacked : t :=
  selectMultipleNodes ["node-1"; "node-2"]
    (addNode 2 0 0 (addNode 1 0 0 initialState)).

(** The actions that record the new live graph as [history.present]. *)
Inductive Commit :=
| AddNode (now : Date) (x y : Q)
| DeleteNode (id : string)
| DeleteNodes (ids : list string)
| ClearCanvas
| SaveToHistory.

Definition runCommit (c : Commit) (s : t) : t :=
  match c with
  | AddNode now x y => addNode now x y s
  | DeleteNode id => deleteNode id s
  | DeleteNodes ids => deleteNodes ids s
  | ClearCanvas => clearCanvas s
  | SaveToHistory => saveToHistory s
  end.

Definition runCommits (cs : list Commit) (s : t) : t :=
  fold_left (fun s c => runCommit c s) cs s.

(** The tag lists of the nodes that carry [id]. *)
Definition tagsOf (id : string) (s : t) : list (list string) :=
  map (fun n => orElse (Node.tags n) [])
      (filter (fun n => String.eqb (Node.id n) id) (nodes s)).

(** The selection flags of the nodes agree with [selectedNodeIds]. *)
Definition selectionConsistent (s : t) : Prop :=
  forall n, In n (nodes s) ->
            Node.selected n = includes (selectedNodeIds s) (Node.id n).

(** The state with the selection box dragged the other way round. *)
Definition reverseDrag (s : t) : t :=
  set_selectionBox
    (SelectionBox.mk (SelectionBox.endX (selectionBox s))
                     (SelectionBox.endY (selectionBox s))
                     (SelectionBox.startX (selectionBox s))
                     (SelectionBox.startY (selectionBox s))
                     (SelectionBox.isActive (selectionBox s)))
    s.

(** Where the content container draws a canvas coordinate: its style is
    [translate(x, y) scale(s)] with origin (0, 0). *)
Definition screenX (tr : CanvasTransform.t) (wx : Q) : Q :=
  wx * CanvasTransform.scale tr + CanvasTransform.x tr.

Definition screenY (tr : CanvasTransform.t) (wy : Q) : Q :=
  wy * CanvasTransform.scale tr + CanvasTransform.y tr.

(** Whether [autoOrganizeNodes] takes the nodes with this id into its
    selection. *)
Definition organizesId (s : t) (id : string) : bool :=
  if (0 <? List.length (selectedNodeIds s))%nat
  then includes (selectedNodeIds s) id
  else match truthy (selectedNodeId s) with
       | Some sel => String.eqb id sel
       | None => false
       end.

(** A node after the layout: as it was, or, if its id is taken by [keep],
    at a new place with the time stamp [now]. *)
Definition keptOrPlaced (keep : string -> bool) (now : Date) (n n' : Node.t) : Prop :=
  n' = n \/ (keep (Node.id n) = true /\ exists x y, n' = Node.moved x y now n).

(** Every entry of [nodePhysics], and every entry of [finalNodes], carries
    an id taken by [keep]. *)
Definition physicsKept (keep : string -> bool) (ps : list Physics.t) : Prop :=
  Forall (fun p => keep (Physics.id p) = true) ps.

Definition finalsKept (keep : string -> bool) (fs : list Final.t) : Prop :=
  Forall (fun f => keep (Final.id f) = true) fs.

(** Two nodes, with a connection being drawn from the first. *)
Definition connectingPair : t :=
  setConnecting true (Some "node-1") (addNode 2 10 10 (addNode 1 0 0 initialState)).




(** * Properties *)

(** ** Undo and redo *)

(** [undo] on a state with at least one past snapshot: the live graph becomes
    the last snapshot of [past], which is removed; [present] is kept as it was
    and is also put in front of [future]. *)
Lemma undo_pops (s : t) (older : list Snapshot.t) (previous : Snapshot.t) :
  History.past (history s) = (older ++ [previous])%list ->
  undo s =
  set_history
    (History.mk older (History.present (history s))
                (History.present (history s) :: History.future (history s)))
    (set_graph previous s).
Proof.
  intros Hp. unfold undo. rewrite Hp, rev_app_distr. simpl.
  now rewrite removelast_last.
Qed.

Lemma undo_empty (s : t) : History.past (history s) = [] -> undo s = s.
Proof. intros Hp. unfold undo. now rewrite Hp. Qed.

Lemma redo_empty (s : t) : History.future (history s) = [] -> redo s = s.
Proof. intros Hf. unfold redo. now rewrite Hf. Qed.


(** C2, on the state after one [addNode]: [undo] restores the snapshot
    popped from [past] as the live graph and pushes the old [present] onto
    [future], but it leaves [history.present] at the old value, which
    differs from the live graph. *)
Theorem undo_leaves_present_stale :
  History.past (history oneNode) = [Snapshot.mk [] [] []]
  /\ graph (undo oneNode) = Snapshot.mk [] [] []
  /\ History.past (history (undo oneNode)) = []
  /\ History.future (history (undo oneNode)) = [History.present (history oneNode)]
  /\ History.present (history (undo oneNode)) = History.present (history oneNode)
  /\ History.present (history (undo oneNode)) <> graph (undo oneNode).
Proof.
  repeat split; try reflexivity.
  vm_compute. discriminate.
Qed.

(** After [undo] then [redo] the popped snapshot is gone from [past]: a
    second [undo] reinstates the graph that is already live. *)
Lemma undo_redo_undo_stuck :
  graph (redo (undo oneNode)) = graph oneNode
  /\ graph (undo (redo (undo oneNode))) = graph oneNode.
Proof. split; reflexivity. Qed.

(** ** Connections *)

Lemma linksPair_spec (a b : string) (c : Connection.t) :
  linksPair a b c = true <->
  (Connection.fromNodeId c = a /\ Connection.toNodeId c = b)
  \/ (Connection.fromNodeId c = b /\ Connection.toNodeId c = a).
Proof.
  unfold linksPair.
  rewrite orb_true_iff, !andb_true_iff, !String.eqb_eq. tauto.
Qed.

Lemma linksPair_sym (a b : string) (c : Connection.t) :
  linksPair a b c = linksPair b a c.
Proof. unfold linksPair. apply orb_comm. Qed.

Lemma find_connected (a b : string) (conns : list Connection.t) :
  connected a b conns -> exists c, find (linksPair a b) conns = Some c.
Proof.
  intros [c [Hin Hc]].
  destruct (find (linksPair a b) conns) as [c'|] eqn:Hf.
  - now exists c'.
  - apply (find_none _ _ Hf) in Hin.
    apply linksPair_spec in Hc. congruence.
Qed.

Lemma addConnection_existing (now : Date) (a b : string) (fp tp : option string) (s : t) :
  connected a b (connections s) -> addConnection now a b fp tp s = s.
Proof.
  intros H. unfold addConnection.
  destruct (String.eqb a b); [reflexivity|].
  destruct (find_connected _ _ _ H) as [c ->]. reflexivity.
Qed.

Lemma connected_sym (a b : string) (conns : list Connection.t) :
  connected a b conns -> connected b a conns.
Proof. intros [c [Hin Hc]]. exists c. tauto. Qed.

Lemma addConnection_connects (now : Date) (a b : string) (fp tp : option string) (s : t) :
  a <> b -> connected a b (connections (addConnection now a b fp tp s)).
Proof.
  intros Hab. unfold addConnection.
  destruct (String.eqb_spec a b) as [E|_]; [contradiction|].
  destruct (find (linksPair a b) (connections s)) as [c|] eqn:Hf.
  - exists c. split.
    + apply (find_some _ _ Hf).
    + apply linksPair_spec. apply (find_some _ _ Hf).
  - eexists. split.
    + simpl. apply in_or_app. right. left. reflexivity.
    + left. split; reflexivity.
Qed.

(** C4. [addConnection] between a node and itself, or between a pair that a
    connection already links in either direction, leaves the connections as
    they are; so [addConnection(b, a)] after [addConnection(a, b)] does not
    change their number. *)
Theorem addConnection_rejects (now now' : Date) (a b : string)
        (fp tp fp' tp' : option string) (s : t) :
  connections (addConnection now a a fp tp s) = connections s
  /\ (connected a b (connections s) ->
      connections (addConnection now a b fp tp s) = connections s
      /\ connections (addConnection now b a fp tp s) = connections s)
  /\ List.length (connections (addConnection now' b a fp' tp'
                                 (addConnection now a b fp tp s)))
     = List.length (connections (addConnection now a b fp tp s)).
Proof.
  split; [|split].
  - unfold addConnection. now rewrite String.eqb_refl.
  - intros H. split.
    + now rewrite addConnection_existing.
    + rewrite addConnection_existing; [reflexivity|]. now apply connected_sym.
  - destruct (String.eqb_spec a b) as [->|Hab].
    + unfold addConnection at 1. now rewrite String.eqb_refl.
    + rewrite (addConnection_existing now' b a); [reflexivity|].
      apply connected_sym. now apply addConnection_connects.
Qed.

Lemma addConnection_rejects_witness :
  connections (addConnection 4 "node-1" "node-2" None None linkedPair)
  = connections linkedPair
  /\ connections (addConnection 4 "node-2" "node-1" None None linkedPair)
     = connections linkedPair.
Proof.
  apply (addConnection_rejects 4 5 "node-1" "node-2" None None None None linkedPair).
  eexists. split.
  - simpl. left. reflexivity.
  - left. split; reflexivity.
Defined.

(** ** History discipline of the store actions *)

Lemma commitHistory_pushes (s s' : t) :
  history s' = history s -> pushesPresent s (commitHistory s').
Proof. intros H. unfold pushesPresent, commitHistory. simpl. rewrite H. auto. Qed.











(** [autoOrganizeNodes], when it acts, pushes the previous live graph onto
    [past] and empties [future]; [present] is left as it was. *)
Lemma autoOrganizeNodes_history (sqrt : Q -> Q) (now : Date) (s : t) :
  autoOrganizeNodes sqrt now s = s
  \/ (commitsPrevious s (autoOrganizeNodes sqrt now s)
      /\ History.present (history (autoOrganizeNodes sqrt now s))
         = History.present (history s)).
Proof.
  unfold autoOrganizeNodes.
  destruct (if (0 <? List.length (selectedNodeIds s))%nat then _ else _) as [[|n l]|];
    try (left; reflexivity).
  right. destruct (layout sqrt (n :: l) (connections s)) as [sim resolved].
  repeat split.
Qed.

(** ** Referential integrity *)



Lemma includes_false (ids : list string) (x : string) :
  negb (includes ids x) = true -> forall y, y = x -> negb (includes ids y) = true.
Proof. intros H y ->. exact H. Qed.





Lemma addConnection_integrity (now : Date) (a b : string) (fp tp : option string) (s : t) :
  resolves a (nodes s) -> resolves b (nodes s) ->
  referentialIntegrity s -> referentialIntegrity (addConnection now a b fp tp s).
Proof.
  intros Ha Hb [Hc Hg]. unfold addConnection.
  destruct (String.eqb a b); [now split|].
  destruct (find (linksPair a b) (connections s)); [now split|].
  split; simpl; [|exact Hg].
  intros c Hin. apply in_app_or in Hin. destruct Hin as [Hin|[<-|[]]].
  - now apply Hc.
  - simpl. now split.
Qed.

Lemma linkedPair_integrity : referentialIntegrity linkedPair.
Proof.
  split.
  - intros c [<-|[]]. split; eexists.
    + split; [left; reflexivity|reflexivity].
    + split; [right; left; reflexivity|reflexivity].
  - intros g m Hg Hm. simpl in Hg.
    destruct Hg as [<-|[<-|[<-|[]]]]; destruct Hm.
Qed.


(** ** Import *)

Lemma mapThrowing_null (now : Date) (l : list (option Node.t)) :
  In None l -> mapThrowing (withTimestamps now) l = None.
Proof.
  induction l as [|[n|] r IH]; intros H.
  - destruct H.
  - destruct H as [H|H]; [discriminate|].
    cbn [mapThrowing withTimestamps]. now rewrite IH.
  - reflexivity.
Qed.

Lemma mapThrowing_nodes (now : Date) (l : list Node.t) :
  mapThrowing (withTimestamps now) (map Some l)
  = Some (map (fun node =>
                 Node.set_stamps (Some (orElse (Node.createdAt node) now))
                                 (Some (orElse (Node.updatedAt node) now)) node) l).
Proof.
  induction l as [|n r IH]; [reflexivity|].
  cbn [map mapThrowing withTimestamps]. now rewrite IH.
Qed.

(** C9, as the code has it. [importCanvas] leaves the state untouched when
    [JSON.parse] throws, when the parsed value is [null], when the [nodes]
    field is truthy without being an array, and when the [nodes] array has a
    [null] element. Every other parsed value, also one whose [nodes] field
    is absent or falsy, replaces the canvas name, nodes, connections, groups
    and transform by what it carries (or by the defaults, the missing node
    timestamps being filled with the import time); nothing is checked. *)
Theorem importCanvas_rejects_only_unreadable (now : Date) (s : t) :
  importCanvas now ParseError s = s
  /\ importCanvas now ParsedNull s = s
  /\ (forall p, Parsed.nodes p = NotAnArray -> importCanvas now (ParsedObject p) s = s)
  /\ (forall p l, Parsed.nodes p = NodesArray l -> In None l ->
        importCanvas now (ParsedObject p) s = s)
  /\ (forall p l,
        (Parsed.nodes p = NodesAbsent /\ l = [])
        \/ Parsed.nodes p = NodesArray (map Some l) ->
        canvasName (importCanvas now (ParsedObject p) s)
        = orElse (truthy (Parsed.canvasName p)) "Untitled Canvas"
        /\ nodes (importCanvas now (ParsedObject p) s)
           = map (fun node =>
                    Node.set_stamps (Some (orElse (Node.createdAt node) now))
                                    (Some (orElse (Node.updatedAt node) now)) node) l
        /\ connections (importCanvas now (ParsedObject p) s)
           = orElse (Parsed.connections p) []
        /\ groups (importCanvas now (ParsedObject p) s) = orElse (Parsed.groups p) []
        /\ transform (importCanvas now (ParsedObject p) s)
           = orElse (Parsed.transform p) (CanvasTransform.mk 0 0 1)).
Proof.
  split; [reflexivity|]. split; [reflexivity|]. split; [|split].
  - intros p Hp. unfold importCanvas, importParsed. now rewrite Hp.
  - intros p l Hp Hnull. unfold importCanvas, importParsed.
    rewrite Hp, (mapThrowing_null now l Hnull). reflexivity.
  - intros p l [[Hp ->]|Hp]; unfold importCanvas, importParsed; rewrite Hp.
    + repeat split.
    + rewrite mapThrowing_nodes. repeat split.
Qed.

Lemma importCanvas_rejects_only_unreadable_witness :
  connections (importCanvas 9 (ParsedObject danglingImport) linkedPair)
  = [Connection.mk "conn-9" "ghost" "phantom" None None "#000000"]
  /\ importCanvas 9 (ParsedObject nullNodeImport) linkedPair = linkedPair.
Proof.
  destruct (importCanvas_rejects_only_unreadable 9 linkedPair)
    as [_ [_ [_ [Hnull Hread]]]].
  split.
  - apply (Hread danglingImport []). right. reflexivity.
  - apply (Hnull nullNodeImport [None]); [reflexivity|left; reflexivity].
Defined.

(** C9 as stated fails: a parsed canvas whose connection names node ids that
    do not exist is not rejected; it replaces the two nodes and the
    connection of [linkedPair]. *)
Lemma importCanvas_accepts_dangling_references :
  List.length (nodes linkedPair) = 2%nat
  /\ nodes (importCanvas 9 (ParsedObject danglingImport) linkedPair) = []
  /\ connections (importCanvas 9 (ParsedObject danglingImport) linkedPair)
     = [Connection.mk "conn-9" "ghost" "phantom" None None "#000000"]
  /\ importCanvas 9 (ParsedObject danglingImport) linkedPair <> linkedPair
  /\ ~ referentialIntegrity (importCanvas 9 (ParsedObject danglingImport) linkedPair).
Proof.
  repeat split; try reflexivity.
  - intros H. apply (f_equal (fun st => List.length (nodes st))) in H.
    vm_compute in H. discriminate.
  - intros [Hc _].
    destruct (Hc (Connection.mk "conn-9" "ghost" "phantom" None None "#000000"))
      as [[n [[] _]] _].
    simpl. auto.
Qed.

(** ** Zoom *)

Lemma zoomAtPoint_scale_bounds (tr : CanvasTransform.t) (mx my f : Q) :
  forall v, TransformPatch.scale (zoomAtPoint tr mx my f) = Some v ->
            1 # 10 <= v /\ v <= 3.
Proof.
  intros v Hv. injection Hv as <-. split.
  - apply Q.le_max_l.
  - apply Q.max_lub; [lra|apply Q.le_min_l].
Qed.

(** The world point under the mouse is the same before and after the zoom
    branch of [handleWheel], whatever the factor. *)
Lemma zoomAtPoint_fixes_point (s : t) (r : Rect.t) (sx sy f : Q) :
  scaleInBounds (transform s) ->
  let s' := setTransform
              (zoomAtPoint (transform s) (sx - Rect.left r) (sy - Rect.top r) f) s in
  Point.x (screenToCanvas (Some r) (transform s') sx sy)
  == Point.x (screenToCanvas (Some r) (transform s) sx sy)
  /\ Point.y (screenToCanvas (Some r) (transform s') sx sy)
     == Point.y (screenToCanvas (Some r) (transform s) sx sy).
Proof.
  intros [Hlo Hhi]. simpl.
  set (sc := CanvasTransform.scale (transform s)) in *.
  set (ns := Qmax (1 # 10) (Qmin 3 (sc * f))).
  assert (Hns : 1 # 10 <= ns) by apply Q.le_max_l.
  split; field; split; lra.
Qed.

Lemma handleWheel_zoom (r : Rect.t) (e : WheelEvent.t) (s : t) :
  WheelEvent.ctrlKey e || WheelEvent.metaKey e = true ->
  exists f,
    handleWheel (Some r) e s
    = setTransform (zoomAtPoint (transform s) (WheelEvent.clientX e - Rect.left r)
                                (WheelEvent.clientY e - Rect.top r) f) s.
Proof.
  intros H. unfold handleWheel. rewrite H. eexists. reflexivity.
Qed.

(** C6. With the scale of the transform within its bounds, zooming at a
    screen point by any factor keeps the canvas point under that screen point
    where it was; so does a wheel turn with the control or meta key held,
    which zooms at the mouse position. Numbers being exact rationals, the two
    points are equal as rationals, also when the new scale is clamped; the
    rounding of doubles is outside the model. *)
Theorem zoom_keeps_point_under_cursor (s : t) (r : Rect.t) :
  scaleInBounds (transform s) ->
  (forall sx sy f,
      let s' := setTransform
                  (zoomAtPoint (transform s) (sx - Rect.left r) (sy - Rect.top r) f) s in
      Point.x (screenToCanvas (Some r) (transform s') sx sy)
      == Point.x (screenToCanvas (Some r) (transform s) sx sy)
      /\ Point.y (screenToCanvas (Some r) (transform s') sx sy)
         == Point.y (screenToCanvas (Some r) (transform s) sx sy))
  /\
  (forall e,
      WheelEvent.ctrlKey e || WheelEvent.metaKey e = true ->
      let s' := handleWheel (Some r) e s in
      Point.x (screenToCanvas (Some r) (transform s')
                              (WheelEvent.clientX e) (WheelEvent.clientY e))
      == Point.x (screenToCanvas (Some r) (transform s)
                                 (WheelEvent.clientX e) (WheelEvent.clientY e))
      /\ Point.y (screenToCanvas (Some r) (transform s')
                                 (WheelEvent.clientX e) (WheelEvent.clientY e))
         == Point.y (screenToCanvas (Some r) (transform s)
                                    (WheelEvent.clientX e) (WheelEvent.clientY e))).
Proof.
  intros Hb. split.
  - intros sx sy f. now apply zoomAtPoint_fixes_point.
  - intros e He s'. subst s'.
    destruct (handleWheel_zoom r e s He) as [f ->].
    now apply zoomAtPoint_fixes_point.
Qed.

Lemma zoom_keeps_point_under_cursor_witness :
  Point.x (screenToCanvas (Some (Rect.mk 10 20))
                          (transform (handleWheel (Some (Rect.mk 10 20)) ctrlWheel
                                                  initialState))
                          400 300)
  == 390.
Proof.
  assert (Hb : scaleInBounds (transform initialState)).
  { split; simpl; lra. }
  destruct (zoom_keeps_point_under_cursor initialState (Rect.mk 10 20) Hb) as [_ Hw].
  destruct (Hw ctrlWheel eq_refl) as [Hx _].
  simpl in Hx. simpl. rewrite Hx. field.
Defined.

(** C7, as the code has it. From a scale within [0.1, 3]: [zoomIn],
    [zoomOut] and [handleWheel] keep the scale within the bounds;
    [fitToScreen] keeps it at most 3 (it caps its own result at 2);
    [setTransform] keeps a scale it is not given and stores one it is given
    as it is. *)
Theorem scale_bound_kept (s : t) :
  scaleInBounds (transform s) ->
  scaleInBounds (transform (zoomIn s))
  /\ scaleInBounds (transform (zoomOut s))
  /\ (forall rect e, scaleInBounds (transform (handleWheel rect e s)))
  /\ (forall canvasSize,
         CanvasTransform.scale (transform (fitToScreen canvasSize s)) <= 3)
  /\ (forall p,
         match TransformPatch.scale p with
         | None => scaleInBounds (transform (setTransform p s))
         | Some v => CanvasTransform.scale (transform (setTransform p s)) = v
         end).
Proof.
  intros [Hlo Hhi]. split; [|split; [|split; [|split]]].
  - split; simpl.
    + apply Q.min_glb; lra.
    + apply Q.le_min_r.
  - split; simpl.
    + apply Q.le_max_r.
    + apply Q.max_lub; [|lra].
      apply Qle_shift_div_r; lra.
  - intros rect e. unfold handleWheel.
    destruct (WheelEvent.ctrlKey e || WheelEvent.metaKey e).
    + destruct rect as [r|]; [|now split].
      split; simpl.
      * apply Q.le_max_l.
      * apply Q.max_lub; [lra|apply Q.le_min_l].
    + now split.
  - intros canvasSize. unfold fitToScreen.
    destruct (nodes s) as [|first rest]; [assumption|].
    destruct (boundsOf first rest) as [[[minX minY] maxX] maxY]. simpl.
    eapply Qle_trans; [apply Q.le_min_r|lra].
  - intros p. destruct (TransformPatch.scale p) eqn:Hp; unfold setTransform; simpl;
      rewrite Hp; [reflexivity|now split].
Qed.

Lemma scale_bound_kept_witness :
  scaleInBounds (transform (zoomIn initialState))
  /\ scaleInBounds (transform (zoomOut initialState)).
Proof.
  assert (Hb : scaleInBounds (transform initialState)).
  { split; simpl; lra. }
  destruct (scale_bound_kept initialState Hb) as [Hin [Hout _]].
  split; assumption.
Defined.

(** C7 as stated fails for [fitToScreen], which has no lower bound: fitting
    two nodes 100000 units apart into an 800 x 600 viewport takes the scale
    from 1 to 800/100400. *)
Lemma fitToScreen_scale_below_bound :
  scaleInBounds (transform farApart)
  /\ CanvasTransform.scale (transform (fitToScreen (Size.mk 800 600) farApart))
     == 800 # 100400
  /\ ~ scaleInBounds (transform (fitToScreen (Size.mk 800 600) farApart)).
Proof.
  split; [|split].
  - split; simpl; lra.
  - reflexivity.
  - intros [Hlo _]. vm_compute in Hlo. apply Hlo. reflexivity.
Qed.

(** [setTransform] stores the scale it is given without clamping it. *)
Lemma setTransform_scale_unclamped :
  CanvasTransform.scale (transform (setTransform scale100 initialState)) = 100
  /\ ~ scaleInBounds (transform (setTransform scale100 initialState)).
Proof.
  split; [reflexivity|].
  intros [_ Hhi]. vm_compute in Hhi. apply Hhi. reflexivity.
Qed.

(** ** Layout *)

(** The simulation loop leaves through its guard within the iteration cap:
    [MAX_ITERATIONS] turns are enough. *)
Lemma simulate_exits (sqrt : Q -> Q) (rc : list Connection.t)
      (nbg : list (option string * list Node.t)) :
  forall fuel sim,
    (MAX_ITERATIONS <= iteration sim + fuel)%nat ->
    (iteration sim <= MAX_ITERATIONS)%nat ->
    let r := simulate sqrt fuel rc nbg sim in
    (iteration r <= MAX_ITERATIONS)%nat
    /\ (converged r = true \/ iteration r = MAX_ITERATIONS).
Proof.
  induction fuel as [|fuel IH]; intros sim Hfuel Hle; cbn [simulate].
  - split; [assumption|right; lia].
  - destruct (Nat.ltb_spec (iteration sim) MAX_ITERATIONS) as [Hlt|Hge];
      cbn [andb].
    + destruct (converged sim) eqn:Hc; cbn [negb].
      * split; [assumption|now left].
      * apply IH; cbn [iteration simStep]; lia.
    + split; [assumption|right; lia].
Qed.

(** So does the overlap loop, within [maxOverlapIterations] turns. *)
Lemma resolveOverlaps_exits (nodesToOrganize : list Node.t) :
  forall fuel r,
    (maxOverlapIterations <= overlapResolutionIterations r + fuel)%nat ->
    (overlapResolutionIterations r <= maxOverlapIterations)%nat ->
    let r' := resolveOverlaps fuel nodesToOrganize r in
    (overlapResolutionIterations r' <= maxOverlapIterations)%nat
    /\ (hasOverlaps r' = false
        \/ overlapResolutionIterations r' = maxOverlapIterations).
Proof.
  induction fuel as [|fuel IH]; intros r Hfuel Hle; cbn [resolveOverlaps].
  - split; [assumption|right; lia].
  - destruct (hasOverlaps r) eqn:Hh; cbn [andb].
    + destruct (Nat.ltb_spec (overlapResolutionIterations r) maxOverlapIterations)
        as [Hlt|Hge].
      * assert (Hs : overlapResolutionIterations (resolveStep nodesToOrganize r)
                     = S (overlapResolutionIterations r)).
        { unfold resolveStep.
          destruct (forEachPair _ _ _) as [finals overlaps]. reflexivity. }
        apply IH; rewrite Hs; lia.
      * split; [assumption|right; lia].
    + split; [assumption|now left].
Qed.

(** X18. Both loops of [autoOrganizeNodes] end within their caps, for every
    selection and every square-root function: the simulation after at most
    300 turns, converged or at the cap, the overlap pass after at most 50,
    free of overlaps or at the cap. *)
Lemma layout_within_caps (sqrt : Q -> Q) (nodesToOrganize : list Node.t)
      (conns : list Connection.t) :
  let '(sim, resolved) := layout sqrt nodesToOrganize conns in
  (iteration sim <= MAX_ITERATIONS)%nat
  /\ (converged sim = true \/ iteration sim = MAX_ITERATIONS)
  /\ (overlapResolutionIterations resolved <= maxOverlapIterations)%nat
  /\ (hasOverlaps resolved = false
      \/ overlapResolutionIterations resolved = maxOverlapIterations).
Proof.
  unfold layout.
  split; [|split].
  - apply simulate_exits; cbn [iteration]; lia.
  - apply simulate_exits; cbn [iteration]; lia.
  - apply resolveOverlaps_exits; cbn [overlapResolutionIterations]; lia.
Qed.

(** C8, on [nested]: two selected nodes with a common centre, the small one
    inside the tall one. No force acts at distance 0, so the simulation stops
    after one turn; each of the 50 separation passes then moves the boxes
    apart by 80, the overlap on the smaller axis plus the padding, and after
    the last pass the small box still lies inside the tall one. *)
Theorem autoOrganizeNodes_leaves_overlap :
  boxes nested = [("node-1", 0, 0, 200, 10000); ("node-2", 50, 4970, 100, 60)]
  /\ (let '(sim, resolved) := layout Math_sqrt (nodes nested) (connections nested) in
      iteration sim = 1%nat /\ converged sim = true
      /\ overlapResolutionIterations resolved = 50%nat
      /\ hasOverlaps resolved = true)
  /\ boxes (autoOrganizeNodes Math_sqrt 5 nested)
     = [("node-1", 0, 2000, 200, 10000); ("node-2", 50, 2970, 100, 60)]
  /\ (exists a b, nodes (autoOrganizeNodes Math_sqrt 5 nested) = [a; b]
                  /\ overlap a b = true).
Proof.
  split; [|split; [|split]].
  - reflexivity.
  - vm_compute. repeat split.
  - vm_compute. reflexivity.
  - eexists. eexists. split.
    + vm_compute. reflexivity.
    + vm_compute. reflexivity.
Qed.

(** C3, on [stacked] with [autoOrganizeNodes] as the one mutation: it pushes
    one snapshot and moves the two nodes to y = 70 and y = -70; [undo] brings
    them back to y = 0, and [redo] reinstates the stale [history.present],
    in which both nodes are still at y = 0. *)
Theorem organize_undo_redo_loses_layout :
  commitsPrevious stacked (autoOrganizeNodes Math_sqrt 5 stacked)
  /\ map Node.y (nodes (autoOrganizeNodes Math_sqrt 5 stacked)) = [70; -70]
  /\ map Node.y (nodes (undo (autoOrganizeNodes Math_sqrt 5 stacked))) = [0; 0]
  /\ map Node.y (nodes (redo (undo (autoOrganizeNodes Math_sqrt 5 stacked)))) = [0; 0].
Proof.
  split; [|split; [|split]].
  - split; vm_compute; reflexivity.
  - vm_compute. reflexivity.
  - vm_compute. reflexivity.
  - vm_compute. reflexivity.
Qed.

(** ** Undo/redo round trip of the actions that refresh [history.present] *)

Lemma runCommit_pushes (c : Commit) (s : t) : pushesPresent s (runCommit c s).
Proof. destruct c; now apply commitHistory_pushes. Qed.

Lemma runCommits_history (cs : list Commit) :
  forall s, exists l,
    List.length l = List.length cs
    /\ History.past (history (runCommits cs s)) = (History.past (history s) ++ l)%list
    /\ (cs <> [] ->
        History.present (history (runCommits cs s)) = graph (runCommits cs s)
        /\ History.future (history (runCommits cs s)) = []).
Proof.
  induction cs as [|c cs IH]; intros s.
  - exists []. repeat split; try (now rewrite app_nil_r); congruence.
  - destruct (runCommit_pushes c s) as [Hp [Hpr Hf]].
    destruct (IH (runCommit c s)) as [l [Hl [Hpast Hrest]]].
    exists (History.present (history s) :: l). split; [simpl; congruence|]. split.
    + unfold runCommits in *. simpl. rewrite Hpast, Hp, <- app_assoc. reflexivity.
    + intros _. destruct cs as [|c' cs'].
      * simpl. auto.
      * apply Hrest. discriminate.
Qed.

Lemma undo_iter (l : list Snapshot.t) :
  forall s older,
    History.past (history s) = (older ++ l)%list ->
    let s' := Nat.iter (List.length l) undo s in
    History.past (history s') = older
    /\ History.present (history s') = History.present (history s)
    /\ History.future (history s')
       = (repeat (History.present (history s)) (List.length l)
          ++ History.future (history s))%list.
Proof.
  induction l as [|x l IH] using rev_ind; intros s older Hp.
  - simpl. rewrite app_nil_r in Hp. auto.
  - rewrite length_app, Nat.add_comm. cbn [List.length Nat.add].
    rewrite Nat.iter_succ_r.
    rewrite app_assoc in Hp. rewrite (undo_pops s _ x Hp).
    specialize (IH (set_history
                      (History.mk (older ++ l)%list (History.present (history s))
                         (History.present (history s) :: History.future (history s)))
                      (set_graph x s)) older eq_refl).
    cbn zeta in IH. destruct IH as [H1 [H2 H3]].
    split; [exact H1|]. split; [exact H2|].
    rewrite H3. simpl.
    change (History.present (history s) :: History.future (history s))
      with ([History.present (history s)] ++ History.future (history s))%list.
    rewrite app_assoc, <- repeat_cons. reflexivity.
Qed.

Lemma redo_step (P : Snapshot.t) (s : t) (m : nat) (F : list Snapshot.t) :
  History.future (history s) = (repeat P (S m) ++ F)%list ->
  graph (redo s) = P
  /\ History.present (history (redo s)) = P
  /\ History.future (history (redo s)) = (repeat P m ++ F)%list.
Proof.
  intros Hf. unfold redo. rewrite Hf. simpl. destruct P. auto.
Qed.

Lemma redo_iter (P : Snapshot.t) (F : list Snapshot.t) (m : nat) :
  forall s,
    graph s = P ->
    History.future (history s) = (repeat P m ++ F)%list ->
    graph (Nat.iter m redo s) = P.
Proof.
  induction m as [|m IH]; intros s Hg Hf.
  - exact Hg.
  - rewrite Nat.iter_succ_r.
    destruct (redo_step P s m F Hf) as [H1 [_ H3]].
    now apply IH.
Qed.

(** X17. After any sequence of [addNode], [deleteNode], [deleteNodes],
    [clearCanvas] and [saveToHistory], as many [undo]s and then as many
    [redo]s give back the live graph the sequence ended with. *)
Lemma undo_redo_roundtrip_commits (cs : list Commit) (s : t) :
  let s' := runCommits cs s in
  let n := List.length cs in
  graph (Nat.iter n redo (Nat.iter n undo s')) = graph s'.
Proof.
  intros s' n. subst s' n.
  destruct (runCommits_history cs s) as [l [Hl [Hpast Hrest]]].
  destruct cs as [|c cs]; [reflexivity|].
  destruct Hrest as [Hpr Hf]; [discriminate|].
  rewrite <- Hl.
  destruct (undo_iter l _ _ Hpast) as [_ [H2 H3]].
  rewrite Hf, app_nil_r, Hpr in H3.
  destruct (List.length l) as [|m] eqn:Hm; [simpl in Hl; discriminate|].
  rewrite (Nat.iter_succ_r m _ redo).
  rewrite <- (app_nil_r (repeat _ _)) in H3.
  destruct (redo_step _ _ m [] H3) as [R1 [_ R3]].
  now apply (redo_iter _ [] m).
Qed.

(** * Further properties of the store *)

Lemma includes_In (ids : list string) (x : string) :
  includes ids x = true <-> In x ids.
Proof.
  unfold includes. rewrite existsb_exists. split.
  - intros [y [Hy E]]. apply String.eqb_eq in E. now subst.
  - intros H. exists x. split; [assumption|apply String.eqb_refl].
Qed.

Lemma includes_notIn (ids : list string) (x : string) :
  negb (includes ids x) = true <-> ~ In x ids.
Proof.
  rewrite negb_true_iff, <- includes_In. destruct (includes ids x); split; congruence.
Qed.

Lemma neqb_neq (a b : string) : negb (String.eqb a b) = true <-> a <> b.
Proof. rewrite negb_true_iff. apply String.eqb_neq. Qed.

(** ** Cascading deletion *)

(** X1. After [deleteNode id] no node carries [id], no connection starts or
    ends at [id] and no group lists [id]; every other node and every
    connection that does not touch [id] is still there, and no group is
    removed. *)
Theorem deleteNode_cascade (id : string) (s : t) :
  (forall n, In n (nodes (deleteNode id s)) -> Node.id n <> id)
  /\ (forall c, In c (connections (deleteNode id s)) ->
                Connection.fromNodeId c <> id /\ Connection.toNodeId c <> id)
  /\ (forall g, In g (groups (deleteNode id s)) -> ~ In id (NodeGroup.nodes g))
  /\ (forall n, In n (nodes s) -> Node.id n <> id -> In n (nodes (deleteNode id s)))
  /\ (forall c, In c (connections s) ->
                Connection.fromNodeId c <> id -> Connection.toNodeId c <> id ->
                In c (connections (deleteNode id s)))
  /\ map NodeGroup.id (groups (deleteNode id s)) = map NodeGroup.id (groups s).
Proof.
  simpl. split; [|split; [|split; [|split; [|split]]]].
  - intros n H. apply filter_In in H. now apply neqb_neq.
  - intros c H. apply filter_In in H. destruct H as [_ H].
    apply andb_true_iff in H. split; now apply neqb_neq.
  - intros g Hg Hin. apply in_map_iff in Hg. destruct Hg as [g0 [<- _]].
    simpl in Hin. apply filter_In in Hin. destruct Hin as [_ Hne].
    apply neqb_neq in Hne. congruence.
  - intros n Hn Hne. apply filter_In. split; [assumption|now apply neqb_neq].
  - intros c Hc Hf Ht. apply filter_In. split; [assumption|].
    apply andb_true_iff. split; now apply neqb_neq.
  - rewrite map_map. reflexivity.
Qed.

(** X2. After [deleteNodes ids] no node carries one of the ids, no
    connection touches one of them, no group lists one of them, and the
    selection is empty; deleting the one-element list [[id]] leaves the same
    graph as [deleteNode id]. *)
Theorem deleteNodes_cascade (ids : list string) (s : t) :
  (forall n, In n (nodes (deleteNodes ids s)) -> ~ In (Node.id n) ids)
  /\ (forall c, In c (connections (deleteNodes ids s)) ->
                ~ In (Connection.fromNodeId c) ids /\ ~ In (Connection.toNodeId c) ids)
  /\ (forall g m, In g (groups (deleteNodes ids s)) -> In m (NodeGroup.nodes g) ->
                  ~ In m ids)
  /\ (forall n, In n (nodes s) -> ~ In (Node.id n) ids -> In n (nodes (deleteNodes ids s)))
  /\ selectedNodeId (deleteNodes ids s) = None
  /\ selectedNodeIds (deleteNodes ids s) = []
  /\ (forall id, graph (deleteNodes [id] s) = graph (deleteNode id s)).
Proof.
  simpl. split; [|split; [|split; [|split; [|split; [|split]]]]]; try reflexivity.
  - intros n H. apply filter_In in H. now apply includes_notIn.
  - intros c H. apply filter_In in H. destruct H as [_ H].
    apply andb_true_iff in H. split; now apply includes_notIn.
  - intros g m Hg Hm. apply in_map_iff in Hg. destruct Hg as [g0 [<- _]].
    simpl in Hm. apply filter_In in Hm. now apply includes_notIn.
  - intros n Hn Hne. apply filter_In. split; [assumption|now apply includes_notIn].
  - intros id. unfold graph. simpl. f_equal.
    + apply filter_ext. intros n. now rewrite orb_false_r.
    + apply filter_ext. intros c. now rewrite !orb_false_r.
    + apply map_ext. intros g. f_equal. apply filter_ext. intros m.
      now rewrite orb_false_r.
Qed.

(** X3. [deleteGroup id] deletes no node and changes no node geometry or
    connection; afterwards no group has the id and no node refers to it,
    while nodes of other groups keep their group. *)
Theorem deleteGroup_keeps_nodes (id : string) (s : t) :
  boxes (deleteGroup id s) = boxes s
  /\ connections (deleteGroup id s) = connections s
  /\ (forall g, In g (groups (deleteGroup id s)) -> NodeGroup.id g <> id)
  /\ (forall n, In n (nodes (deleteGroup id s)) -> Node.groupId n <> Some id)
  /\ (forall n, In n (nodes s) -> Node.groupId n <> Some id ->
                In n (nodes (deleteGroup id s))).
Proof.
  split; [|split; [|split; [|split]]]; try reflexivity.
  - unfold boxes. simpl. rewrite map_map. apply map_ext. intros n.
    destruct (opt_eqb (Node.groupId n) (Some id)); reflexivity.
  - intros g Hg. simpl in Hg. apply filter_In in Hg. now apply neqb_neq.
  - intros n Hn. simpl in Hn. apply in_map_iff in Hn. destruct Hn as [n0 [<- _]].
    destruct (opt_eqb (Node.groupId n0) (Some id)) eqn:E; [discriminate|].
    intros H. rewrite H in E. simpl in E. now rewrite String.eqb_refl in E.
  - intros n Hn Hne. simpl. apply in_map_iff. exists n. split; [|assumption].
    destruct (Node.groupId n) as [g|] eqn:Eg; simpl; [|reflexivity].
    destruct (String.eqb_spec g id); [congruence|reflexivity].
Qed.

(** ** Group membership *)

Lemma uniq_In (l : list string) :
  forall seen x, In x (uniq seen l) <-> In x l /\ ~ In x seen.
Proof.
  induction l as [|a r IH]; intros seen x; simpl.
  - tauto.
  - destruct (includes seen a) eqn:E.
    + apply includes_In in E. rewrite IH. split.
      * tauto.
      * intros [[->|H] Hn]; [contradiction|tauto].
    + assert (Ha : ~ In a seen).
      { intros H. apply includes_In in H. congruence. }
      simpl. rewrite IH. simpl. split.
      * intros [->|[H Hn]]; [tauto|]. split; [tauto|]. tauto.
      * intros [[->|H] Hn]; [tauto|].
        destruct (string_dec a x) as [->|Hne]; [tauto|]. right. split; [assumption|].
        intros [E'|E']; [congruence|contradiction].
Qed.

Lemma uniq_NoDup (l : list string) : forall seen, NoDup (uniq seen l).
Proof.
  induction l as [|a r IH]; intros seen; simpl.
  - constructor.
  - destruct (includes seen a); [apply IH|].
    constructor; [|apply IH].
    rewrite uniq_In. simpl. tauto.
Qed.

(** X4. [assignNodesToGroup] does nothing when no group has the id.
    Otherwise every node whose id is listed gets the group id, every group
    with that id lists all the ids without repetition, and no other group
    lists any of them. *)
Theorem assignNodesToGroup_moves_members (nodeIds : list string) (groupId : string) (s : t) :
  ((forall g, In g (groups s) -> NodeGroup.id g <> groupId) ->
   assignNodesToGroup nodeIds groupId s = s)
  /\
  ((exists g, In g (groups s) /\ NodeGroup.id g = groupId) ->
   (forall n, In n (nodes (assignNodesToGroup nodeIds groupId s)) ->
              In (Node.id n) nodeIds -> Node.groupId n = Some groupId)
   /\ (forall g, In g (groups (assignNodesToGroup nodeIds groupId s)) ->
                 NodeGroup.id g = groupId ->
                 NoDup (NodeGroup.nodes g)
                 /\ (forall m, In m nodeIds -> In m (NodeGroup.nodes g)))
   /\ (forall g m, In g (groups (assignNodesToGroup nodeIds groupId s)) ->
                   NodeGroup.id g <> groupId ->
                   In m nodeIds -> ~ In m (NodeGroup.nodes g))).
Proof.
  unfold assignNodesToGroup. split.
  - intros Hno.
    destruct (find _ (groups s)) as [g|] eqn:Hf; [|reflexivity].
    apply find_some in Hf. destruct Hf as [Hin E]. apply String.eqb_eq in E.
    now apply Hno in Hin.
  - intros [g0 [Hin0 E0]].
    destruct (find _ (groups s)) as [g|] eqn:Hf.
    2:{ apply (find_none _ _ Hf) in Hin0. apply String.eqb_neq in Hin0. contradiction. }
    simpl. split; [|split].
    + intros n Hn Hid. apply in_map_iff in Hn. destruct Hn as [n0 [<- _]].
      destruct (includes nodeIds (Node.id n0)) eqn:E; [reflexivity|].
      apply includes_In in Hid. congruence.
    + intros g' Hg' Eg'. apply in_map_iff in Hg'. destruct Hg' as [g1 [<- _]].
      destruct (String.eqb_spec (NodeGroup.id g1) groupId) as [E|E];
        simpl in *; [|contradiction].
      split; [apply uniq_NoDup|].
      intros m Hm. apply uniq_In. split; [|auto]. apply in_or_app. now right.
    + intros g' m Hg' Eg' Hm Hin. apply in_map_iff in Hg'. destruct Hg' as [g1 [<- _]].
      destruct (String.eqb_spec (NodeGroup.id g1) groupId) as [E|E];
        simpl in *; [contradiction|].
      apply filter_In in Hin. destruct Hin as [_ Hn].
      apply includes_notIn in Hn. contradiction.
Qed.

Lemma assignNodesToGroup_moves_members_witness :
  assignNodesToGroup ["node-1"] "violet" linkedPair = linkedPair
  /\ (forall n, In n (nodes (assignNodesToGroup ["node-1"] "blue" linkedPair)) ->
                In (Node.id n) ["node-1"] -> Node.groupId n = Some "blue").
Proof.
  destruct (assignNodesToGroup_moves_members ["node-1"] "violet" linkedPair) as [Hno _].
  destruct (assignNodesToGroup_moves_members ["node-1"] "blue" linkedPair) as [_ Hyes].
  split.
  - apply Hno. intros g Hg. simpl in Hg.
    destruct Hg as [<-|[<-|[<-|[]]]]; discriminate.
  - apply Hyes. eexists. split; [right; left; reflexivity|reflexivity].
Defined.

Lemma resolves_map (f : Node.t -> Node.t) (id : string) (ns : list Node.t) :
  (forall n, Node.id (f n) = Node.id n) -> resolves id ns -> resolves id (map f ns).
Proof.
  intros Hf [n [Hin E]]. exists (f n). split; [now apply in_map|].
  now rewrite Hf.
Qed.

Lemma memberOf_map (f : Node.t -> Node.t) (gid id : string) (ns : list Node.t) :
  (forall n, Node.id (f n) = Node.id n) ->
  (forall n, Node.id n = id -> Node.groupId n = Some gid ->
             Node.groupId (f n) = Some gid) ->
  memberOf gid id ns -> memberOf gid id (map f ns).
Proof.
  intros Hid Hg [n [Hin [E G]]]. exists (f n). split; [now apply in_map|].
  split; [now rewrite Hid|now apply Hg].
Qed.

(** A node rewritten under a test keeps its id. *)
Ltac same_id :=
  let n := fresh "n" in
  intros n; simpl;
  match goal with |- context [if ?b then _ else _] => destruct b end; reflexivity.

Lemma assignNodesToGroup_integrity (nodeIds : list string) (groupId : string) (s : t) :
  (forall m, In m nodeIds -> resolves m (nodes s)) ->
  referentialIntegrity s -> referentialIntegrity (assignNodesToGroup nodeIds groupId s).
Proof.
  intros Hres [Hc Hg]. unfold assignNodesToGroup.
  destruct (find _ (groups s)); [|now split].
  split; simpl.
  - intros c Hin. destruct (Hc c Hin) as [Ha Hb].
    split; apply resolves_map; try assumption; same_id.
  - intros g m Hin Hm. apply in_map_iff in Hin. destruct Hin as [g1 [<- Hin]].
    destruct (String.eqb_spec (NodeGroup.id g1) groupId) as [E|E]; simpl in *.
    + apply uniq_In in Hm. destruct Hm as [Hm _].
      apply in_app_or in Hm. destruct Hm as [Hm|Hm].
      * apply memberOf_map; [same_id| |now apply Hg].
        intros n _ G. destruct (includes nodeIds (Node.id n)); simpl; congruence.
      * destruct (Hres m Hm) as [n [Hn En]].
        exists (Node.set_groupId (Some groupId) n). split; [|split].
        -- apply in_map_iff. exists n. split; [|assumption].
           apply includes_In in Hm. now rewrite En, Hm.
        -- assumption.
        -- simpl. congruence.
    + apply filter_In in Hm. destruct Hm as [Hm Hn]. apply includes_notIn in Hn.
      apply memberOf_map; [same_id| |now apply Hg].
      intros n En G. destruct (includes nodeIds (Node.id n)) eqn:I.
      * apply includes_In in I. congruence.
      * exact G.
Qed.

Lemma addNodeToGroup_integrity (nodeId groupId : string) (s : t) :
  resolves nodeId (nodes s) ->
  referentialIntegrity s -> referentialIntegrity (addNodeToGroup nodeId groupId s).
Proof.
  intros [n0 [Hn0 En0]] [Hc Hg]. unfold addNodeToGroup.
  destruct (find _ (groups s)); [|now split].
  split; simpl.
  - intros c Hin. destruct (Hc c Hin) as [Ha Hb].
    split; apply resolves_map; try assumption; same_id.
  - intros g m Hin Hm. apply in_map_iff in Hin. destruct Hin as [g1 [<- Hin]].
    destruct (String.eqb_spec (NodeGroup.id g1) groupId) as [E|E]; simpl in *.
    + apply uniq_In in Hm. destruct Hm as [Hm _].
      apply in_app_or in Hm. destruct Hm as [Hm|[<-|[]]].
      * apply memberOf_map; [same_id| |now apply Hg].
        intros n _ G. destruct (String.eqb (Node.id n) nodeId); simpl; congruence.
      * exists (Node.set_groupId (Some groupId) n0). split; [|split].
        -- apply in_map_iff. exists n0. split; [|assumption].
           now rewrite En0, String.eqb_refl.
        -- assumption.
        -- simpl. congruence.
    + apply filter_In in Hm. destruct Hm as [Hm Hn]. apply neqb_neq in Hn.
      apply memberOf_map; [same_id| |now apply Hg].
      intros n En G. destruct (String.eqb_spec (Node.id n) nodeId) as [I|I].
      * congruence.
      * exact G.
Qed.

Lemma removeNodesFromGroups_integrity (nodeIds : list string) (s : t) :
  referentialIntegrity s -> referentialIntegrity (removeNodesFromGroups nodeIds s).
Proof.
  intros [Hc Hg]. split; simpl.
  - intros c Hin. destruct (Hc c Hin) as [Ha Hb].
    split; apply resolves_map; try assumption; same_id.
  - intros g m Hin Hm. apply in_map_iff in Hin. destruct Hin as [g1 [<- Hin]].
    simpl in *. apply filter_In in Hm. destruct Hm as [Hm Hn].
    apply includes_notIn in Hn.
    apply memberOf_map; [same_id| |now apply Hg].
    intros n En G. destruct (includes nodeIds (Node.id n)) eqn:I.
    + apply includes_In in I. congruence.
    + exact G.
Qed.

(** X5. The grouping actions keep referential integrity:
    [assignNodesToGroup] and [addNodeToGroup] when the node ids they are
    given resolve to nodes, [removeNodesFromGroups] always. *)
Theorem grouping_keeps_integrity (s : t) :
  referentialIntegrity s ->
  (forall nodeIds groupId,
      (forall m, In m nodeIds -> resolves m (nodes s)) ->
      referentialIntegrity (assignNodesToGroup nodeIds groupId s))
  /\ (forall nodeId groupId,
         resolves nodeId (nodes s) ->
         referentialIntegrity (addNodeToGroup nodeId groupId s))
  /\ (forall nodeIds, referentialIntegrity (removeNodesFromGroups nodeIds s)).
Proof.
  intros H. split; [|split]; intros.
  - now apply assignNodesToGroup_integrity.
  - now apply addNodeToGroup_integrity.
  - now apply removeNodesFromGroups_integrity.
Qed.

Lemma grouping_keeps_integrity_witness :
  referentialIntegrity (assignNodesToGroup ["node-1"; "node-2"] "blue" linkedPair)
  /\ referentialIntegrity (removeNodesFromGroups ["node-1"] linkedPair).
Proof.
  destruct (grouping_keeps_integrity linkedPair linkedPair_integrity) as [Ha [_ Hr]].
  split; [|apply Hr].
  apply Ha. intros m [<-|[<-|[]]]; eexists.
  - split; [left; reflexivity|reflexivity].
  - split; [right; left; reflexivity|reflexivity].
Defined.

(** X6. After [removeNodesFromGroups ids] no group lists one of the ids
    and no node with one of the ids has a group; nodes with other ids and
    the other members of every group are kept, and no group is deleted. *)
Theorem removeNodesFromGroups_detaches (nodeIds : list string) (s : t) :
  (forall g m, In g (groups (removeNodesFromGroups nodeIds s)) ->
               In m (NodeGroup.nodes g) -> ~ In m nodeIds)
  /\ (forall n, In n (nodes (removeNodesFromGroups nodeIds s)) ->
                In (Node.id n) nodeIds -> Node.groupId n = None)
  /\ (forall n, In n (nodes s) -> ~ In (Node.id n) nodeIds ->
                In n (nodes (removeNodesFromGroups nodeIds s)))
  /\ map NodeGroup.id (groups (removeNodesFromGroups nodeIds s))
     = map NodeGroup.id (groups s)
  /\ boxes (removeNodesFromGroups nodeIds s) = boxes s.
Proof.
  simpl. split; [|split; [|split; [|split]]].
  - intros g m Hg Hm. apply in_map_iff in Hg. destruct Hg as [g0 [<- _]].
    simpl in Hm. apply filter_In in Hm. now apply includes_notIn.
  - intros n Hn Hid. apply in_map_iff in Hn. destruct Hn as [n0 [<- _]].
    destruct (includes nodeIds (Node.id n0)) eqn:E; [reflexivity|].
    apply includes_In in Hid. congruence.
  - intros n Hn Hne. apply in_map_iff. exists n. split; [|assumption].
    apply includes_notIn in Hne. apply negb_true_iff in Hne. now rewrite Hne.
  - rewrite map_map. reflexivity.
  - unfold boxes. simpl. rewrite map_map. apply map_ext. intros n.
    destruct (includes nodeIds (Node.id n)); reflexivity.
Qed.

(** X7. [clearCanvas] removes every node and connection and keeps the
    groups with their member lists: the cleared canvas has referential
    integrity exactly when no group had a member. *)
Theorem clearCanvas_integrity_iff (s : t) :
  nodes (clearCanvas s) = []
  /\ connections (clearCanvas s) = []
  /\ groups (clearCanvas s) = groups s
  /\ (referentialIntegrity (clearCanvas s)
      <-> forall g, In g (groups s) -> NodeGroup.nodes g = []).
Proof.
  split; [reflexivity|]. split; [reflexivity|]. split; [reflexivity|].
  split.
  - intros [_ Hg] g Hin. simpl in Hg.
    destruct (NodeGroup.nodes g) as [|m r] eqn:E; [reflexivity|].
    destruct (Hg g m Hin) as [n [[] _]]. rewrite E. now left.
  - intros H. split; simpl.
    + intros c [].
    + intros g m Hin Hm. rewrite (H g Hin) in Hm. destruct Hm.
Qed.

(** ** Creating nodes and connections *)

Lemma integrity_graph (s s' : t) :
  graph s' = graph s -> referentialIntegrity s -> referentialIntegrity s'.
Proof.
  unfold graph, referentialIntegrity. intros E. injection E as -> -> ->. auto.
Qed.

Lemma resolves_app (id : string) (ns more : list Node.t) :
  resolves id ns -> resolves id (ns ++ more).
Proof. intros [n [Hin E]]. exists n. split; [apply in_or_app; now left|assumption]. Qed.

Lemma integrity_more_nodes (more : list Node.t) (s : t) :
  referentialIntegrity s ->
  referentialIntegrity (commitHistory (set_nodes (nodes s ++ more) s)).
Proof.
  intros [Hc Hg]. split; simpl.
  - intros c Hin. destruct (Hc c Hin). split; now apply resolves_app.
  - intros g m Hin Hm. destruct (Hg g m Hin Hm) as [n [Hn E]].
    exists n. split; [apply in_or_app; now left|assumption].
Qed.

Lemma findNode_resolves (id : string) (ns : list Node.t) (n : Node.t) :
  findNode id ns = Some n -> resolves id ns.
Proof.
  intros H. apply find_some in H. destruct H as [Hin E].
  apply String.eqb_eq in E. now exists n.
Qed.

(** X8. [duplicateNode] of an id no node carries changes nothing. Of a
    known id it appends one unselected copy, moved by (20, 20), with the
    size, content, colour and group id of the original; it copies no
    connection and leaves every group list as it was. Both [addNode] and
    [duplicateNode] keep referential integrity. *)
Theorem duplicateNode_appends_copy (now : Date) (id : string) (s : t) :
  (findNode id (nodes s) = None -> duplicateNode now id s = s)
  /\ (forall n, findNode id (nodes s) = Some n ->
        exists copy,
          nodes (duplicateNode now id s) = (nodes s ++ [copy])%list
          /\ Node.x copy = Node.x n + 20 /\ Node.y copy = Node.y n + 20
          /\ Node.width copy = Node.width n /\ Node.height copy = Node.height n
          /\ Node.content copy = Node.content n /\ Node.color copy = Node.color n
          /\ Node.groupId copy = Node.groupId n /\ Node.selected copy = false
          /\ connections (duplicateNode now id s) = connections s
          /\ groups (duplicateNode now id s) = groups s)
  /\ (referentialIntegrity s ->
      referentialIntegrity (duplicateNode now id s)
      /\ forall x y, referentialIntegrity (addNode now x y s)).
Proof.
  split; [|split].
  - intros H. unfold duplicateNode. now rewrite H.
  - intros n H. unfold duplicateNode. rewrite H. eexists. simpl.
    repeat split; reflexivity.
  - intros H. split.
    + unfold duplicateNode. destruct (findNode id (nodes s)); [|assumption].
      now apply integrity_more_nodes.
    + intros x y. now apply integrity_more_nodes.
Qed.

Lemma duplicateNode_appends_copy_witness :
  duplicateNode 7 "node-404" linkedPair = linkedPair
  /\ referentialIntegrity (duplicateNode 7 "node-1" linkedPair).
Proof.
  destruct (duplicateNode_appends_copy 7 "node-404" linkedPair) as [Hnone _].
  destruct (duplicateNode_appends_copy 7 "node-1" linkedPair) as [_ [_ Hri]].
  split.
  - apply Hnone. reflexivity.
  - apply Hri. exact linkedPair_integrity.
Defined.

Lemma applyConnectionSuggestion_integrity (now : Date)
      (suggestion : ConnectionSuggestion.t) (s : t) :
  referentialIntegrity s -> referentialIntegrity (applyConnectionSuggestion now suggestion s).
Proof.
  intros H. unfold applyConnectionSuggestion.
  destruct (findNode (ConnectionSuggestion.nodeId1 suggestion) (nodes s)) as [a|] eqn:Ha;
    [|assumption].
  destruct (findNode (ConnectionSuggestion.nodeId2 suggestion) (nodes s)) as [b|] eqn:Hb;
    [|assumption].
  eapply integrity_graph; [reflexivity|].
  apply addConnection_integrity; try assumption; eapply findNode_resolves; eassumption.
Qed.

Lemma handleCompleteConnection_integrity (now : Date) (point target : string) (s : t) :
  referentialIntegrity s ->
  referentialIntegrity (handleCompleteConnection now point target s).
Proof.
  intros H. unfold handleCompleteConnection.
  destruct (isConnecting s); [|assumption].
  destruct (truthy (connectingFromNodeId s)) as [from|]; [|assumption].
  destruct (String.eqb from target); [assumption|].
  eapply integrity_graph; [reflexivity|].
  destruct (findNode from (nodes s)) as [a|] eqn:Ha; [|assumption].
  destruct (findNode target (nodes s)) as [b|] eqn:Hb; [|assumption].
  apply addConnection_integrity; try assumption; eapply findNode_resolves; eassumption.
Qed.

(** X9. The two callers that create connections for the user,
    [handleCompleteConnection] of the canvas and [applyConnectionSuggestion]
    of the store, look both nodes up first: whatever ids they are given,
    they keep referential integrity. *)
Theorem connecting_callers_keep_integrity (s : t) :
  referentialIntegrity s ->
  (forall now point target,
      referentialIntegrity (handleCompleteConnection now point target s))
  /\ (forall now suggestion,
         referentialIntegrity (applyConnectionSuggestion now suggestion s)).
Proof.
  intros H. split; intros.
  - now apply handleCompleteConnection_integrity.
  - now apply applyConnectionSuggestion_integrity.
Qed.

Lemma connecting_callers_keep_integrity_witness :
  referentialIntegrity (handleCompleteConnection 9 "right" "node-2" connectingPair)
  /\ List.length (connections (handleCompleteConnection 9 "right" "node-2" connectingPair))
     = 1%nat.
Proof.
  assert (H : referentialIntegrity connectingPair).
  { split.
    - intros c [].
    - intros g m Hg Hm. simpl in Hg.
      destruct Hg as [<-|[<-|[<-|[]]]]; destruct Hm. }
  destruct (connecting_callers_keep_integrity connectingPair H) as [Hc _].
  split; [apply Hc|reflexivity].
Defined.

(** ** Tags *)

Lemma indexOfFrom_skip (t : string) (pre l : list string) :
  ~ In t pre ->
  forall i, indexOfFrom t (pre ++ l) i = indexOfFrom t l (i + List.length pre).
Proof.
  induction pre as [|a r IH]; intros Hn i; simpl.
  - now rewrite Nat.add_0_r.
  - destruct (String.eqb_spec a t) as [E|E].
    + exfalso. apply Hn. now left.
    + rewrite IH; [f_equal; lia|]. intros H. apply Hn. now right.
Qed.

Lemma indexOfFrom_early (t : string) (pre l : list string) :
  In t pre ->
  forall i, exists j, indexOfFrom t (pre ++ l) i = Some j /\ (j < i + List.length pre)%nat.
Proof.
  induction pre as [|a r IH]; intros Hin i; simpl; [destruct Hin|].
  destruct (String.eqb_spec a t) as [E|E].
  - exists i. split; [reflexivity|lia].
  - destruct Hin as [Hin|Hin]; [contradiction|].
    destruct (IH Hin (S i)) as [j [Hj Hlt]]. exists j. split; [assumption|lia].
Qed.

(** The index filter of [addTagToNode] keeps the first occurrence of each
    tag, as a [Set] would. *)
Lemma firstOccurrences_from (l : list string) :
  forall pre seen,
    (forall x, In x seen <-> In x pre) ->
    map snd
        (filter (fun it => match indexOf (snd it) (pre ++ l) with
                           | Some k => Nat.eqb k (fst it)
                           | None => false
                           end)
                (combine (seq (List.length pre) (List.length l)) l))
    = uniq seen l.
Proof.
  induction l as [|a r IH]; intros pre seen Hs; [reflexivity|].
  cbn [List.length seq combine filter uniq fst snd].
  destruct (includes seen a) eqn:E.
  - apply includes_In in E. apply Hs in E.
    destruct (indexOfFrom_early a pre (a :: r) E 0) as [j [Hj Hlt]].
    unfold indexOf at 1. rewrite Hj.
    destruct (Nat.eqb_spec j (List.length pre)) as [Ej|_]; [simpl in Hlt; lia|].
    specialize (IH (pre ++ [a])%list seen).
    rewrite <- app_assoc, length_app, Nat.add_comm in IH. apply IH.
    intros x. rewrite Hs, in_app_iff. simpl. split; [tauto|].
    intros [H|[<-|[]]]; assumption.
  - assert (Ha : ~ In a pre).
    { intros H. apply Hs, includes_In in H. congruence. }
    unfold indexOf at 1. rewrite (indexOfFrom_skip a pre (a :: r) Ha 0).
    cbn [indexOfFrom]. rewrite String.eqb_refl, Nat.eqb_refl.
    cbn [map snd]. f_equal.
    specialize (IH (pre ++ [a])%list (a :: seen)).
    rewrite <- app_assoc, length_app, Nat.add_comm in IH. apply IH.
    intros x. simpl. rewrite Hs, in_app_iff. simpl. tauto.
Qed.

Lemma firstOccurrences_uniq (arr : list string) : firstOccurrences arr = uniq [] arr.
Proof.
  unfold firstOccurrences. apply (firstOccurrences_from arr [] []). tauto.
Qed.

Lemma uniq_known (l : list string) :
  forall seen t,
    NoDup l -> (forall x, In x l -> ~ In x seen) -> In t (seen ++ l) ->
    uniq seen (l ++ [t]) = l.
Proof.
  induction l as [|a r IH]; intros seen t Hnd Hdis Hin; simpl.
  - rewrite app_nil_r in Hin. apply includes_In in Hin. now rewrite Hin.
  - assert (E : includes seen a = false).
    { destruct (includes seen a) eqn:E; [|reflexivity].
      apply includes_In in E. exfalso. apply (Hdis a); [now left|assumption]. }
    rewrite E. f_equal. inversion Hnd as [|? ? Hna Hr]; subst.
    apply IH; [assumption| |].
    + intros x Hx [<-|Hs]; [contradiction|]. apply (Hdis x); [now right|assumption].
    + apply in_app_or in Hin. apply in_or_app. simpl in *. tauto.
Qed.

(** X10. After [addTagToNode] every node with the id has a tag list without
    repetition that contains the new tag; adding the same tag again leaves
    the tag lists as they are; after [removeTagFromNode] no node with the id
    has the tag, and every other tag stays, in order. Nodes with another id
    are not touched by either. *)
Theorem tag_actions (now now' : Date) (nodeId tag : string) (s : t) :
  (forall l, In l (tagsOf nodeId (addTagToNode now nodeId tag s)) ->
             NoDup l /\ In tag l)
  /\ tagsOf nodeId (addTagToNode now' nodeId tag (addTagToNode now nodeId tag s))
     = tagsOf nodeId (addTagToNode now nodeId tag s)
  /\ (forall l, In l (tagsOf nodeId (removeTagFromNode now nodeId tag s)) -> ~ In tag l)
  /\ map (filter (fun t => negb (String.eqb t tag))) (tagsOf nodeId s)
     = tagsOf nodeId (removeTagFromNode now nodeId tag s)
  /\ (forall n, In n (nodes s) -> Node.id n <> nodeId ->
                In n (nodes (addTagToNode now nodeId tag s))
                /\ In n (nodes (removeTagFromNode now nodeId tag s))).
Proof.
  assert (Hadd : forall u st,
             tagsOf nodeId (addTagToNode u nodeId tag st)
             = map (fun l => uniq [] (l ++ [tag])) (tagsOf nodeId st)).
  { intros u st. unfold tagsOf, addTagToNode. simpl.
    induction (nodes st) as [|n r IH]; [reflexivity|]. simpl.
    destruct (String.eqb (Node.id n) nodeId) eqn:E; simpl; rewrite E; simpl.
    - now rewrite IH, firstOccurrences_uniq.
    - exact IH. }
  assert (Hrem : tagsOf nodeId (removeTagFromNode now nodeId tag s)
                 = map (filter (fun t => negb (String.eqb t tag))) (tagsOf nodeId s)).
  { unfold tagsOf, removeTagFromNode. simpl.
    induction (nodes s) as [|n r IH]; [reflexivity|]. simpl.
    destruct (String.eqb (Node.id n) nodeId) eqn:E; simpl; rewrite E; simpl.
    - now rewrite IH.
    - exact IH. }
  split; [|split; [|split; [|split]]].
  - intros l Hl. rewrite Hadd in Hl. apply in_map_iff in Hl.
    destruct Hl as [l0 [<- _]]. split; [apply uniq_NoDup|].
    apply uniq_In. split; [|auto]. apply in_or_app. right. now left.
  - rewrite !Hadd, map_map. apply map_ext. intros l.
    apply uniq_known; [apply uniq_NoDup|auto|].
    simpl. apply uniq_In. split; [|auto]. apply in_or_app. right. now left.
  - intros l Hl. rewrite Hrem in Hl. apply in_map_iff in Hl.
    destruct Hl as [l0 [<- _]]. intros H. apply filter_In in H.
    destruct H as [_ H]. apply neqb_neq in H. congruence.
  - now rewrite Hrem.
  - intros n Hn Hne. apply String.eqb_neq in Hne.
    split; simpl; apply in_map_iff; exists n; (split; [now rewrite Hne|assumption]).
Qed.

Lemma NoDup_map_eq {A B : Type} (f : A -> B) (l : list A) :
  NoDup (map f l) -> forall a b, In a l -> In b l -> f a = f b -> a = b.
Proof.
  induction l as [|x r IH]; intros Hnd a b Ha Hb E; [destruct Ha|].
  simpl in Hnd. inversion Hnd as [|? ? Hx Hr]; subst.
  destruct Ha as [<-|Ha], Hb as [<-|Hb].
  - reflexivity.
  - exfalso. apply Hx. rewrite E. now apply in_map.
  - exfalso. apply Hx. rewrite <- E. now apply in_map.
  - now apply IH.
Qed.

(** X11. With a non-empty tag as filter, every node [getVisibleNodes]
    returns carries the tag; when the node ids are distinct it returns
    every node that carries it. Without a filter, or after
    [clearTagFilter], it returns all nodes. *)
Theorem tagFilter_visible (tag : string) (s : t) :
  tag <> "" ->
  (forall n, In n (getVisibleNodes (setTagFilter (Some tag) s)) ->
             In n (nodes s) /\ hasTag tag n = true)
  /\ (NoDup (map Node.id (nodes s)) ->
      forall n, In n (nodes s) -> hasTag tag n = true ->
                In n (getVisibleNodes (setTagFilter (Some tag) s)))
  /\ getVisibleNodes (clearTagFilter (setTagFilter (Some tag) s)) = nodes s
  /\ getVisibleNodes (setTagFilter None s) = nodes s.
Proof.
  intros Htag. apply String.eqb_neq in Htag.
  assert (Hvis : forall n,
             In n (getVisibleNodes (setTagFilter (Some tag) s)) <->
             In n (nodes s)
             /\ ~ In (Node.id n)
                  (map Node.id (filter (fun node => negb (hasTag tag node)) (nodes s)))).
  { intros n. unfold getVisibleNodes, setTagFilter. simpl. rewrite Htag. simpl.
    rewrite filter_In, includes_notIn, uniq_In. simpl. tauto. }
  split; [|split; [|split]]; try reflexivity.
  - intros n Hn. apply Hvis in Hn. destruct Hn as [Hin Hno]. split; [assumption|].
    destruct (hasTag tag n) eqn:E; [reflexivity|]. exfalso. apply Hno.
    apply in_map. apply filter_In. split; [assumption|now rewrite E].
  - intros Hnd n Hin Ht. apply Hvis. split; [assumption|].
    intros H. apply in_map_iff in H. destruct H as [n2 [E H2]].
    apply filter_In in H2. destruct H2 as [Hin2 Hno].
    assert (n2 = n) by (eapply NoDup_map_eq; eassumption).
    subst. rewrite Ht in Hno. discriminate.
Qed.

Lemma tagFilter_visible_witness :
  getVisibleNodes (clearTagFilter (setTagFilter (Some "idea") linkedPair))
  = nodes linkedPair.
Proof.
  apply (tagFilter_visible "idea" linkedPair). discriminate.
Defined.

(** ** Connection suggestions *)

Lemma otherSuggestion_spec (sg x : ConnectionSuggestion.t) :
  otherSuggestion sg x = true <->
  ConnectionSuggestion.nodeId1 x <> ConnectionSuggestion.nodeId1 sg
  \/ ConnectionSuggestion.nodeId2 x <> ConnectionSuggestion.nodeId2 sg.
Proof. unfold otherSuggestion. now rewrite orb_true_iff, !neqb_neq. Qed.

(** X12. [dismissConnectionSuggestion] leaves graph and history alone and
    drops exactly the suggestions for the same ordered pair of ids.
    [applyConnectionSuggestion] does nothing at all, the suggestion staying
    listed, when one of the two nodes is missing; when both exist it drops
    the same suggestions and afterwards the pair is connected, unless the two
    ids are equal. *)
Theorem suggestion_actions (now : Date) (sg : ConnectionSuggestion.t) (s : t) :
  (graph (dismissConnectionSuggestion sg s) = graph s
   /\ history (dismissConnectionSuggestion sg s) = history s
   /\ forall x, In x (AISuggestions.connections
                        (aiSuggestions (dismissConnectionSuggestion sg s)))
                <-> In x (AISuggestions.connections (aiSuggestions s))
                    /\ (ConnectionSuggestion.nodeId1 x <> ConnectionSuggestion.nodeId1 sg
                        \/ ConnectionSuggestion.nodeId2 x <> ConnectionSuggestion.nodeId2 sg))
  /\ (findNode (ConnectionSuggestion.nodeId1 sg) (nodes s) = None
      \/ findNode (ConnectionSuggestion.nodeId2 sg) (nodes s) = None ->
      applyConnectionSuggestion now sg s = s)
  /\ (findNode (ConnectionSuggestion.nodeId1 sg) (nodes s) <> None ->
      findNode (ConnectionSuggestion.nodeId2 sg) (nodes s) <> None ->
      AISuggestions.connections (aiSuggestions (applyConnectionSuggestion now sg s))
      = AISuggestions.connections (aiSuggestions (dismissConnectionSuggestion sg s))
      /\ (ConnectionSuggestion.nodeId1 sg <> ConnectionSuggestion.nodeId2 sg ->
          connected (ConnectionSuggestion.nodeId1 sg) (ConnectionSuggestion.nodeId2 sg)
                    (connections (applyConnectionSuggestion now sg s)))).
Proof.
  split; [|split].
  - split; [reflexivity|]. split; [reflexivity|].
    intros x. simpl. now rewrite filter_In, otherSuggestion_spec.
  - unfold applyConnectionSuggestion. intros [H|H]; rewrite H; [reflexivity|].
    now destruct (findNode (ConnectionSuggestion.nodeId1 sg) (nodes s)).
  - intros H1 H2. unfold applyConnectionSuggestion.
    destruct (findNode (ConnectionSuggestion.nodeId1 sg) (nodes s)); [|contradiction].
    destruct (findNode (ConnectionSuggestion.nodeId2 sg) (nodes s)); [|contradiction].
    split.
    + simpl. f_equal. unfold addConnection.
      destruct (String.eqb _ _); [reflexivity|].
      destruct (find _ (connections s)); reflexivity.
    + intros Hne. simpl. now apply addConnection_connects.
Qed.

Lemma suggestion_actions_witness :
  applyConnectionSuggestion 8 (ConnectionSuggestion.mk "node-1" "node-404" "alike" (1 # 2))
                            linkedPair
  = linkedPair.
Proof.
  apply (suggestion_actions 8 _ linkedPair). right. reflexivity.
Defined.

(** ** Selection *)

Lemma existsb_ids (sel : list Node.t) (x : string) :
  existsb (fun n => String.eqb (Node.id n) x) sel = includes (map Node.id sel) x.
Proof.
  unfold includes. induction sel as [|a r IH]; [reflexivity|].
  simpl. now rewrite IH, String.eqb_sym.
Qed.

(** X13. After [selectMultipleNodes], [clearSelection], [endSelectionBox],
    [selectNode(null)] and [selectNode] of a non-empty id, a node is flagged
    as selected exactly when its id is in [selectedNodeIds]; none of them
    moves or resizes a node or touches the history. *)
Theorem selection_flags_agree (s : t) :
  (forall ids, selectionConsistent (selectMultipleNodes ids s))
  /\ selectionConsistent (clearSelection s)
  /\ selectionConsistent (endSelectionBox s)
  /\ selectionConsistent (selectNode None s)
  /\ (forall id, id <> "" -> selectionConsistent (selectNode (Some id) s))
  /\ (forall ids, boxes (selectMultipleNodes ids s) = boxes s)
  /\ boxes (clearSelection s) = boxes s
  /\ boxes (endSelectionBox s) = boxes s
  /\ (forall id, boxes (selectNode id s) = boxes s).
Proof.
  assert (Hb : forall (f : Node.t -> bool) st,
             map (fun n => (Node.id n, Node.x n, Node.y n, Node.width n, Node.height n))
                 (map (fun n => Node.set_selected (f n) n) (nodes st))
             = boxes st).
  { intros f st. unfold boxes. rewrite map_map. reflexivity. }
  split; [|split; [|split; [|split; [|split; [|split; [|split; [|split]]]]]]].
  - intros ids n Hn. simpl in *. apply in_map_iff in Hn.
    destruct Hn as [n0 [<- _]]. reflexivity.
  - intros n Hn. simpl in *. apply in_map_iff in Hn.
    destruct Hn as [n0 [<- _]]. reflexivity.
  - intros n Hn. unfold endSelectionBox in *. simpl in *. apply in_map_iff in Hn.
    destruct Hn as [n0 [<- _]]. simpl. apply existsb_ids.
  - intros n Hn. simpl in *. apply in_map_iff in Hn.
    destruct Hn as [n0 [<- _]]. reflexivity.
  - intros id Hid n Hn. apply String.eqb_neq in Hid. simpl in *. rewrite Hid.
    apply in_map_iff in Hn. destruct Hn as [n0 [<- _]]. simpl.
    now rewrite orb_false_r.
  - intros ids. apply (Hb (fun n => includes ids (Node.id n))).
  - apply (Hb (fun _ => false)).
  - unfold endSelectionBox, boxes. simpl. rewrite map_map. reflexivity.
  - intros id. apply (Hb (fun n => opt_eqb (Some (Node.id n)) id)).
Qed.

Lemma selectNode_clearSelection (id : option string) (s : t) :
  selectNode id (clearSelection s) = selectNode id s.
Proof.
  destruct s. unfold selectNode, clearSelection, set_nodes, set_graph, set_selection.
  simpl. rewrite map_map. reflexivity.
Qed.

Lemma selectNode_twice (id id' : option string) (s : t) :
  selectNode id (selectNode id' s) = selectNode id s.
Proof.
  destruct s. unfold selectNode, set_nodes, set_graph, set_selection.
  simpl. rewrite map_map. reflexivity.
Qed.

(** X14. Outside connection mode a click on a node is [selectNode] of that
    node, also when several nodes were selected (the extra [clearSelection]
    and second [selectNode] change nothing); in connection mode a click on
    the node the connection starts from does nothing. *)
Theorem handleNodeClick_selects (now : Date) (point nodeId : string) (s : t) :
  (isConnecting s = false ->
   handleNodeClick now point nodeId s = selectNode (Some nodeId) s)
  /\ (isConnecting s = true -> connectingFromNodeId s = Some nodeId ->
      handleNodeClick now point nodeId s = s).
Proof.
  split.
  - intros Hc. unfold handleNodeClick. rewrite Hc. simpl.
    destruct (1 <? List.length (selectedNodeIds s))%nat; [|reflexivity].
    now rewrite selectNode_clearSelection, selectNode_twice.
  - intros Hc Hf. unfold handleNodeClick. rewrite Hc, Hf. simpl.
    destruct (String.eqb nodeId ""); simpl; [reflexivity|].
    now rewrite String.eqb_refl.
Qed.

Lemma handleNodeClick_selects_witness :
  handleNodeClick 9 "center" "node-2" linkedPair = selectNode (Some "node-2") linkedPair.
Proof.
  apply (handleNodeClick_selects 9 "center" "node-2" linkedPair). reflexivity.
Defined.

Lemma Qltb_lt (a b : Q) : Qltb a b = true <-> a < b.
Proof.
  unfold Qltb. rewrite negb_true_iff. split.
  - intros H. apply Qnot_le_lt. intros L. apply Qle_bool_iff in L. congruence.
  - intros H. destruct (Qle_bool b a) eqn:E; [|reflexivity].
    apply Qle_bool_iff in E. exfalso. apply (Qlt_not_le _ _ H E).
Qed.

Lemma Qltb_compat (a a' b b' : Q) : a == a' -> b == b' -> Qltb a b = Qltb a' b'.
Proof.
  intros Ea Eb. destruct (Qltb a' b') eqn:E.
  - apply Qltb_lt. apply Qltb_lt in E. now rewrite Ea, Eb.
  - destruct (Qltb a b) eqn:E'; [|reflexivity].
    apply Qltb_lt in E'. rewrite Ea, Eb in E'. apply Qltb_lt in E'. congruence.
Qed.

(** X15. [endSelectionBox] selects the same nodes whichever way the box was
    dragged. An id is selected exactly when a node carrying it has a
    bounding box that overlaps the dragged rectangle on both axes by more
    than nothing. The box is deactivated and keeps its four corner
    coordinates, and no single node is left selected. *)
Theorem endSelectionBox_direction (s : t) :
  nodes (endSelectionBox (reverseDrag s)) = nodes (endSelectionBox s)
  /\ selectedNodeIds (endSelectionBox (reverseDrag s))
     = selectedNodeIds (endSelectionBox s)
  /\ (forall n,
         In n (nodes s) ->
         Node.x n < Qmax (SelectionBox.startX (selectionBox s))
                         (SelectionBox.endX (selectionBox s)) ->
         Qmin (SelectionBox.startX (selectionBox s))
              (SelectionBox.endX (selectionBox s)) < Node.x n + Node.width n ->
         Node.y n < Qmax (SelectionBox.startY (selectionBox s))
                         (SelectionBox.endY (selectionBox s)) ->
         Qmin (SelectionBox.startY (selectionBox s))
              (SelectionBox.endY (selectionBox s)) < Node.y n + Node.height n ->
         In (Node.id n) (selectedNodeIds (endSelectionBox s)))
  /\ SelectionBox.isActive (selectionBox (endSelectionBox s)) = false
  /\ SelectionBox.startX (selectionBox (endSelectionBox s))
     = SelectionBox.startX (selectionBox s)
  /\ SelectionBox.endX (selectionBox (endSelectionBox s))
     = SelectionBox.endX (selectionBox s)
  /\ SelectionBox.startY (selectionBox (endSelectionBox s))
     = SelectionBox.startY (selectionBox s)
  /\ SelectionBox.endY (selectionBox (endSelectionBox s))
     = SelectionBox.endY (selectionBox s)
  /\ selectedNodeId (endSelectionBox s) = None
  /\ (forall id,
         In id (selectedNodeIds (endSelectionBox s)) ->
         exists n,
           In n (nodes s) /\ Node.id n = id
           /\ Node.x n < Qmax (SelectionBox.startX (selectionBox s))
                              (SelectionBox.endX (selectionBox s))
           /\ Qmin (SelectionBox.startX (selectionBox s))
                   (SelectionBox.endX (selectionBox s)) < Node.x n + Node.width n
           /\ Node.y n < Qmax (SelectionBox.startY (selectionBox s))
                              (SelectionBox.endY (selectionBox s))
           /\ Qmin (SelectionBox.startY (selectionBox s))
                   (SelectionBox.endY (selectionBox s)) < Node.y n + Node.height n).
Proof.
  assert (E : filter
                (fun node =>
                   Qltb (Node.x node)
                        (Qmax (SelectionBox.endX (selectionBox s))
                              (SelectionBox.startX (selectionBox s)))
                   && Qltb (Qmin (SelectionBox.endX (selectionBox s))
                                 (SelectionBox.startX (selectionBox s)))
                           (Node.x node + Node.width node)
                   && Qltb (Node.y node)
                           (Qmax (SelectionBox.endY (selectionBox s))
                                 (SelectionBox.startY (selectionBox s)))
                   && Qltb (Qmin (SelectionBox.endY (selectionBox s))
                                 (SelectionBox.startY (selectionBox s)))
                           (Node.y node + Node.height node))
                (nodes s)
              = filter
                  (fun node =>
                     Qltb (Node.x node)
                          (Qmax (SelectionBox.startX (selectionBox s))
                                (SelectionBox.endX (selectionBox s)))
                     && Qltb (Qmin (SelectionBox.startX (selectionBox s))
                                   (SelectionBox.endX (selectionBox s)))
                             (Node.x node + Node.width node)
                     && Qltb (Node.y node)
                             (Qmax (SelectionBox.startY (selectionBox s))
                                   (SelectionBox.endY (selectionBox s)))
                     && Qltb (Qmin (SelectionBox.startY (selectionBox s))
                                   (SelectionBox.endY (selectionBox s)))
                             (Node.y node + Node.height node))
                  (nodes s)).
  { apply filter_ext. intros n.
    f_equal; [f_equal; [f_equal|]|]; apply Qltb_compat;
      try reflexivity; try apply Q.max_comm; apply Q.min_comm. }
  split; [|split; [|split; [|split; [|split; [|split; [|split; [|split; [|split]]]]]]]];
    try reflexivity.
  - unfold endSelectionBox, reverseDrag. simpl. now rewrite E.
  - unfold endSelectionBox, reverseDrag. simpl. now rewrite E.
  - intros n Hn H1 H2 H3 H4. unfold endSelectionBox. simpl.
    apply in_map. apply filter_In. split; [assumption|].
    rewrite !andb_true_iff, !Qltb_lt. auto.
  - intros id Hid. unfold endSelectionBox in Hid. simpl in Hid.
    apply in_map_iff in Hid. destruct Hid as [n [En Hn]].
    apply filter_In in Hn. destruct Hn as [Hn Hb].
    rewrite !andb_true_iff, !Qltb_lt in Hb.
    exists n. tauto.
Qed.

Lemma endSelectionBox_direction_witness :
  In "node-1"
     (selectedNodeIds (endSelectionBox (updateSelectionBox 150 150
                                          (startSelectionBox (-5) (-5) oneNode)))).
Proof.
  destruct (endSelectionBox_direction
              (updateSelectionBox 150 150 (startSelectionBox (-5) (-5) oneNode)))
    as [_ [_ [H _]]].
  apply (H (Node.mk "node-1" 0 0 200 120 defaultContent None "#ffffff" false
                    (Some true) (Some 1%Z) (Some 1%Z) None None)).
  - left. reflexivity.
  - reflexivity.
  - reflexivity.
  - reflexivity.
  - reflexivity.
Defined.

(** ** History *)

(** X16. Directly after [addNode], [deleteNode], [deleteNodes],
    [clearCanvas] or [saveToHistory], [redo] does nothing, and [undo] makes
    the live graph the [history.present] recorded before the action, not
    the graph that was live before it: changes made since that record by
    actions that skip the history are dropped too. A [redo] then gives back
    the graph the action produced. *)
Theorem undo_after_commit (c : Commit) (s : t) :
  redo (runCommit c s) = runCommit c s
  /\ graph (undo (runCommit c s)) = History.present (history s)
  /\ History.past (history (undo (runCommit c s))) = History.past (history s)
  /\ graph (redo (undo (runCommit c s))) = graph (runCommit c s).
Proof.
  destruct (runCommit_pushes c s) as [Hp [Hpr Hf]].
  split; [now apply redo_empty|].
  rewrite (undo_pops _ _ _ Hp). simpl.
  split; [now destruct (History.present (history s))|].
  split; [reflexivity|].
  rewrite Hpr. unfold redo. simpl. now destruct (graph (runCommit c s)).
Qed.

(** ** Fit to screen *)

Lemma boundsOf_fold (rest : list Node.t) :
  forall a b c d,
    let '(minX, minY, maxX, maxY) :=
      fold_left
        (fun '(minX, minY, maxX, maxY) node =>
           (Qmin minX (Node.x node),
            Qmin minY (Node.y node),
            Qmax maxX (Node.x node + Node.width node),
            Qmax maxY (Node.y node + Node.height node)))
        rest (a, b, c, d) in
    (minX <= a /\ minY <= b /\ c <= maxX /\ d <= maxY)
    /\ forall n, In n rest ->
                 minX <= Node.x n /\ minY <= Node.y n
                 /\ Node.x n + Node.width n <= maxX
                 /\ Node.y n + Node.height n <= maxY.
Proof.
  induction rest as [|m r IH]; intros a b c d.
  - simpl. split; [repeat split; apply Qle_refl|intros n []].
  - simpl.
    specialize (IH (Qmin a (Node.x m)) (Qmin b (Node.y m))
                   (Qmax c (Node.x m + Node.width m))
                   (Qmax d (Node.y m + Node.height m))).
    destruct (fold_left _ r _) as [[[minX minY] maxX] maxY].
    destruct IH as [[H1 [H2 [H3 H4]]] Hr].
    pose proof (Q.le_min_l a (Node.x m)). pose proof (Q.le_min_r a (Node.x m)).
    pose proof (Q.le_min_l b (Node.y m)). pose proof (Q.le_min_r b (Node.y m)).
    pose proof (Q.le_max_l c (Node.x m + Node.width m)).
    pose proof (Q.le_max_r c (Node.x m + Node.width m)).
    pose proof (Q.le_max_l d (Node.y m + Node.height m)).
    pose proof (Q.le_max_r d (Node.y m + Node.height m)).
    split; [repeat split; lra|].
    intros n [<-|Hn]; [repeat split; lra|now apply Hr].
Qed.

Lemma boundsOf_covers (first : Node.t) (rest : list Node.t) :
  let '(minX, minY, maxX, maxY) := boundsOf first rest in
  forall n, In n (first :: rest) ->
            minX <= Node.x n /\ minY <= Node.y n
            /\ Node.x n + Node.width n <= maxX
            /\ Node.y n + Node.height n <= maxY.
Proof.
  unfold boundsOf.
  pose proof (boundsOf_fold rest (Node.x first) (Node.y first)
                            (Node.x first + Node.width first)
                            (Node.y first + Node.height first)) as H.
  destruct (fold_left _ rest _) as [[[minX minY] maxX] maxY].
  destruct H as [[H1 [H2 [H3 H4]]] Hr].
  intros n [<-|Hn]; [repeat split; assumption|now apply Hr].
Qed.

(** The part of [fitToScreen] for one axis: with the viewport extent [W],
    the padded content interval [lo, hi] and a scale between 0 and
    [W / (hi - lo)], every sub-interval is drawn inside [0, W]. *)
Lemma fit_axis (W lo hi scale a b : Q) :
  lo < hi -> 0 <= scale -> scale * (hi - lo) <= W ->
  lo <= a -> a <= b -> b <= hi ->
  let tx := (W - (hi - lo) * scale) / 2 - lo * scale in
  0 <= a * scale + tx /\ b * scale + tx <= W.
Proof.
  intros Hlt Hs Hfit Ha Hab Hb tx. subst tx.
  assert (P1 : 0 <= (a - lo) * scale) by (apply Qmult_le_0_compat; lra).
  assert (P2 : 0 <= (hi - b) * scale) by (apply Qmult_le_0_compat; lra).
  split.
  - setoid_replace (a * scale + ((W - (hi - lo) * scale) / 2 - lo * scale))
      with ((a - lo) * scale + (W - scale * (hi - lo)) * (1 # 2)) by field.
    lra.
  - setoid_replace (b * scale + ((W - (hi - lo) * scale) / 2 - lo * scale))
      with (W - (hi - b) * scale - (W - scale * (hi - lo)) * (1 # 2)) by field.
    lra.
Qed.

Lemma min3_fits (W H cw ch : Q) :
  0 <= W -> 0 <= H -> 0 < cw -> 0 < ch ->
  let scale := Qmin (Qmin (W / cw) (H / ch)) 2 in
  0 <= scale /\ scale * cw <= W /\ scale * ch <= H.
Proof.
  intros HW HH Hcw Hch scale. subst scale.
  assert (Hx : 0 <= W / cw) by (apply Qle_shift_div_l; lra).
  assert (Hy : 0 <= H / ch) by (apply Qle_shift_div_l; lra).
  set (m := Qmin (Qmin (W / cw) (H / ch)) 2).
  assert (Hm1 : m <= W / cw).
  { eapply Qle_trans; [apply Q.le_min_l|apply Q.le_min_l]. }
  assert (Hm2 : m <= H / ch).
  { eapply Qle_trans; [apply Q.le_min_l|apply Q.le_min_r]. }
  split; [|split].
  - apply Q.min_glb; [apply Q.min_glb; assumption|lra].
  - assert (E : W / cw * cw == W) by (field; lra).
    rewrite <- E. apply Qmult_le_compat_r; [assumption|lra].
  - assert (E : H / ch * ch == H) by (field; lra).
    rewrite <- E. apply Qmult_le_compat_r; [assumption|lra].
Qed.

(** X19. [fitToScreen] leaves an empty canvas as it is. With nodes of
    non-negative size and a viewport of non-negative size it picks a scale
    between 0 and 2 for which every node is drawn inside the viewport. *)
Theorem fitToScreen_shows_all (canvasSize : Size.t) (s : t) :
  (nodes s = [] -> fitToScreen canvasSize s = s)
  /\ (0 <= Size.width canvasSize -> 0 <= Size.height canvasSize ->
      (forall n, In n (nodes s) -> 0 <= Node.width n /\ 0 <= Node.height n) ->
      nodes s <> [] ->
      let tr := transform (fitToScreen canvasSize s) in
      0 <= CanvasTransform.scale tr <= 2
      /\ forall n, In n (nodes s) ->
                   0 <= screenX tr (Node.x n)
                   /\ screenX tr (Node.x n + Node.width n) <= Size.width canvasSize
                   /\ 0 <= screenY tr (Node.y n)
                   /\ screenY tr (Node.y n + Node.height n) <= Size.height canvasSize).
Proof.
  split.
  - intros H. unfold fitToScreen. now rewrite H.
  - intros HW HH Hsz Hne tr. subst tr. unfold fitToScreen.
    destruct (nodes s) as [|first rest] eqn:En; [contradiction|].
    pose proof (boundsOf_covers first rest) as Hcov.
    destruct (boundsOf first rest) as [[[minX minY] maxX] maxY].
    destruct (Hcov first (or_introl eq_refl)) as [F1 [F2 [F3 F4]]].
    destruct (Hsz first (or_introl eq_refl)) as [Fw Fh].
    assert (Hcw : 0 < maxX + 100 - (minX - 100)) by lra.
    assert (Hch : 0 < maxY + 100 - (minY - 100)) by lra.
    destruct (min3_fits (Size.width canvasSize) (Size.height canvasSize)
                        _ _ HW HH Hcw Hch) as [S0 [SW SH]].
    cbn [transform set_transform CanvasTransform.scale CanvasTransform.x
         CanvasTransform.y screenX screenY].
    split.
    + split; [exact S0|apply Q.le_min_r].
    + intros n Hn. destruct (Hcov n Hn) as [N1 [N2 [N3 N4]]].
      destruct (Hsz n Hn) as [Nw Nh].
      destruct (fit_axis (Size.width canvasSize) (minX - 100) (maxX + 100) _
                         (Node.x n) (Node.x n + Node.width n)
                         ltac:(lra) S0 SW ltac:(lra) ltac:(lra) ltac:(lra)) as [A B].
      destruct (fit_axis (Size.height canvasSize) (minY - 100) (maxY + 100) _
                         (Node.y n) (Node.y n + Node.height n)
                         ltac:(lra) S0 SH ltac:(lra) ltac:(lra) ltac:(lra)) as [C D].
      split; [exact A|split; [exact B|split; [exact C|exact D]]].
Qed.

Lemma fitToScreen_shows_all_witness :
  0 <= screenX (transform (fitToScreen (Size.mk 800 600) farApart)) 0
  /\ screenX (transform (fitToScreen (Size.mk 800 600) farApart)) (100000 + 200) <= 800.
Proof.
  assert (Hsz : forall n, In n (nodes farApart) -> 0 <= Node.width n /\ 0 <= Node.height n).
  { intros n [<-|[<-|[]]]; split; simpl; lra. }
  assert (Hne : nodes farApart <> []) by discriminate.
  destruct (fitToScreen_shows_all (Size.mk 800 600) farApart) as [_ H].
  assert (HW : 0 <= Size.width (Size.mk 800 600)) by (simpl; lra).
  assert (HH : 0 <= Size.height (Size.mk 800 600)) by (simpl; lra).
  destruct (H HW HH Hsz Hne) as [_ Hall].
  destruct (Hall (Node.mk "node-2" 100000 0 200 120 defaultContent None "#ffffff"
                          false (Some true) (Some 2%Z) (Some 2%Z) None None))
    as [_ [Hr _]]; [right; left; reflexivity|].
  destruct (Hall (Node.mk "node-1" 0 0 200 120 defaultContent None "#ffffff"
                          false (Some true) (Some 1%Z) (Some 1%Z) None None))
    as [Hl _]; [left; reflexivity|].
  split; [exact Hl|exact Hr].
Defined.

(** ** Zoom buttons *)

(** X20. [zoomIn] and [zoomOut] keep the translation, so they scale about
    the canvas origin. Where neither result is clamped they undo each
    other: from a scale in [0.1, 2.5], [zoomOut] after [zoomIn] gives the
    scale back, and so does [zoomIn] after [zoomOut] from a scale in
    [0.12, 3]. *)
Theorem zoom_buttons_invert (s : t) :
  (CanvasTransform.x (transform (zoomIn s)) = CanvasTransform.x (transform s)
   /\ CanvasTransform.y (transform (zoomIn s)) = CanvasTransform.y (transform s)
   /\ CanvasTransform.x (transform (zoomOut s)) = CanvasTransform.x (transform s)
   /\ CanvasTransform.y (transform (zoomOut s)) = CanvasTransform.y (transform s))
  /\ (1 # 10 <= CanvasTransform.scale (transform s) ->
      CanvasTransform.scale (transform s) <= 25 # 10 ->
      CanvasTransform.scale (transform (zoomOut (zoomIn s)))
      == CanvasTransform.scale (transform s))
  /\ (12 # 100 <= CanvasTransform.scale (transform s) ->
      CanvasTransform.scale (transform s) <= 3 ->
      CanvasTransform.scale (transform (zoomIn (zoomOut s)))
      == CanvasTransform.scale (transform s)).
Proof.
  split; [repeat split|].
  set (sc := CanvasTransform.scale (transform s)).
  split; intros Hlo Hhi; simpl; fold sc.
  - destruct (Q.min_spec (sc * (12 # 10)) 3) as [[H E]|[H E]]; rewrite E.
    + destruct (Q.max_spec (sc * (12 # 10) / (12 # 10)) (1 # 10)) as [[H' E']|[H' E']];
        rewrite E'.
      * assert (sc * (12 # 10) / (12 # 10) == sc) by field. lra.
      * field.
    + assert (sc * (12 # 10) == 3) by lra.
      destruct (Q.max_spec (3 / (12 # 10)) (1 # 10)) as [[H' E']|[H' E']]; rewrite E'.
      * exfalso. revert H'. apply Qle_not_lt. apply Qle_shift_div_l; lra.
      * assert (sc == 3 / (12 # 10)) by (field_simplify_eq; lra). lra.
  - destruct (Q.max_spec (sc / (12 # 10)) (1 # 10)) as [[H E]|[H E]]; rewrite E.
    + assert (sc / (12 # 10) <= 1 # 10) by lra.
      assert (sc <= 12 # 100).
      { setoid_replace sc with (sc / (12 # 10) * (12 # 10)) by field. lra. }
      assert (sc == 12 # 100) by lra.
      destruct (Q.min_spec ((1 # 10) * (12 # 10)) 3) as [[H' E']|[H' E']]; rewrite E'; lra.
    + destruct (Q.min_spec (sc / (12 # 10) * (12 # 10)) 3) as [[H' E']|[H' E']];
        rewrite E'.
      * field.
      * assert (sc / (12 # 10) * (12 # 10) == sc) by field. lra.
Qed.

Lemma zoom_buttons_invert_witness :
  CanvasTransform.scale (transform (zoomOut (zoomIn initialState))) == 1.
Proof.
  apply (zoom_buttons_invert initialState); simpl; lra.
Defined.

(** ** Anchors *)

Lemma Qltb_ge (a b : Q) : Qltb a b = false <-> b <= a.
Proof.
  split.
  - intros H. apply Qnot_lt_le. intros L. apply Qltb_lt in L. congruence.
  - intros H. destruct (Qltb a b) eqn:E; [|reflexivity].
    apply Qltb_lt in E. exfalso. apply (Qlt_not_le _ _ E H).
Qed.

(** X21. The side [getBestTargetConnectionPoint] picks on the target faces
    the source: left only when the target centre is to the right of the
    source centre, right only when it is to the left, top only when it is
    below, bottom only when it is above or level. It is always one of the
    four sides, whatever the source point is called. *)
Theorem getBestTargetConnectionPoint_faces_source
        (sourceNode targetNode : Node.t) (sourcePoint : string) :
  let deltaX := (Node.x targetNode + Node.width targetNode / 2)
                - (Node.x sourceNode + Node.width sourceNode / 2) in
  let deltaY := (Node.y targetNode + Node.height targetNode / 2)
                - (Node.y sourceNode + Node.height sourceNode / 2) in
  let side := getBestTargetConnectionPoint sourceNode targetNode sourcePoint in
  (side = "left" /\ 0 < deltaX)
  \/ (side = "right" /\ deltaX < 0)
  \/ (side = "top" /\ 0 < deltaY)
  \/ (side = "bottom" /\ deltaY <= 0).
Proof.
  intros deltaX deltaY side. subst side. unfold getBestTargetConnectionPoint.
  fold deltaX deltaY.
  destruct (String.eqb sourcePoint "right" && Qltb 0 deltaX) eqn:E1.
  { apply andb_true_iff in E1. destruct E1 as [_ E1]. apply Qltb_lt in E1. auto. }
  destruct (String.eqb sourcePoint "left" && Qltb deltaX 0) eqn:E2.
  { apply andb_true_iff in E2. destruct E2 as [_ E2]. apply Qltb_lt in E2. auto. }
  destruct (String.eqb sourcePoint "bottom" && Qltb 0 deltaY) eqn:E3.
  { apply andb_true_iff in E3. destruct E3 as [_ E3]. apply Qltb_lt in E3. auto. }
  destruct (String.eqb sourcePoint "top" && Qltb deltaY 0) eqn:E4.
  { apply andb_true_iff in E4. destruct E4 as [_ E4]. apply Qltb_lt in E4.
    right. right. right. split; [reflexivity|lra]. }
  destruct (Qltb (Qabs deltaY) (Qabs deltaX)) eqn:E5.
  - apply Qltb_lt in E5.
    destruct (Qltb 0 deltaX) eqn:E6.
    + apply Qltb_lt in E6. auto.
    + apply Qltb_ge in E6. right. left. split; [reflexivity|].
      pose proof (Qabs_nonneg deltaY).
      destruct (Qle_lt_or_eq _ _ E6) as [L|L]; [assumption|].
      assert (Z0 : Qabs deltaX == 0) by (rewrite L; reflexivity).
      exfalso. rewrite Z0 in E5. lra.
  - destruct (Qltb 0 deltaY) eqn:E6.
    + apply Qltb_lt in E6. auto.
    + apply Qltb_ge in E6. auto.
Qed.

(** X22. [getConnectionPoint] returns the middle of the named side for the
    four side names and the centre of the node for any other name. For a
    node of non-negative size the point lies within the node's bounding
    box. *)
Theorem getConnectionPoint_on_node (node : Node.t) (point : string) :
  0 <= Node.width node -> 0 <= Node.height node ->
  let p := getConnectionPoint node point in
  (Node.x node <= Point.x p <= Node.x node + Node.width node
   /\ Node.y node <= Point.y p <= Node.y node + Node.height node)
  /\ (point = "top" -> Point.y p = Node.y node)
  /\ (point = "bottom" -> Point.y p = Node.y node + Node.height node)
  /\ (point = "left" -> Point.x p = Node.x node)
  /\ (point = "right" -> Point.x p = Node.x node + Node.width node)
  /\ (point = "top" \/ point = "bottom" ->
      Point.x p = Node.x node + Node.width node / 2)
  /\ (point = "left" \/ point = "right" ->
      Point.y p = Node.y node + Node.height node / 2)
  /\ (point <> "top" -> point <> "right" -> point <> "bottom" -> point <> "left" ->
      Point.x p = Node.x node + Node.width node / 2
      /\ Point.y p = Node.y node + Node.height node / 2).
Proof.
  intros Hw Hh p. subst p. unfold getConnectionPoint.
  assert (Hhalf : forall v, 0 <= v -> 0 <= v / 2 /\ v / 2 <= v).
  { intros v Hv. split; [apply Qle_shift_div_l|apply Qle_shift_div_r]; lra. }
  destruct (Hhalf _ Hw) as [W0 W1]. destruct (Hhalf _ Hh) as [H0 H1].
  set (hw := Node.width node / 2) in *. set (hh := Node.height node / 2) in *.
  assert (Hx : Node.x node <= Node.x node + hw <= Node.x node + Node.width node)
    by (split; lra).
  assert (Hy : Node.y node <= Node.y node + hh <= Node.y node + Node.height node)
    by (split; lra).
  split.
  - destruct (String.eqb point "top"); [simpl; split; [exact Hx|lra]|].
    destruct (String.eqb point "right"); [simpl; split; [lra|exact Hy]|].
    destruct (String.eqb point "bottom"); [simpl; split; [exact Hx|lra]|].
    destruct (String.eqb point "left"); simpl; split; try assumption; lra.
  - split; [intros ->; reflexivity|].
    split; [intros ->; reflexivity|].
    split; [intros ->; reflexivity|].
    split; [intros ->; reflexivity|].
    split; [intros [->| ->]; reflexivity|].
    split; [intros [->| ->]; reflexivity|].
    intros N1 N2 N3 N4.
    apply String.eqb_neq in N1, N2, N3, N4. rewrite N1, N2, N3, N4.
    split; reflexivity.
Qed.

Lemma getConnectionPoint_on_node_witness :
  Point.y (getConnectionPoint
             (Node.mk "node-1" 0 0 200 120 defaultContent None "#ffffff" false
                      None None None None None) "bottom")
  = 0 + 120.
Proof.
  apply getConnectionPoint_on_node; [simpl; lra|simpl; lra|reflexivity].
Defined.

(** ** Dragging and resizing *)

Lemma updateNode_In (now : Date) (id : string) (p : NodePatch.t) (s : t) (n' : Node.t) :
  In n' (nodes (updateNode now id p s)) ->
  (In n' (nodes s) /\ Node.id n' <> id)
  \/ (exists n, In n (nodes s) /\ Node.id n = id /\ n' = applyNodePatch now p n).
Proof.
  simpl. intros H. apply in_map_iff in H. destruct H as [n [E Hn]].
  destruct (String.eqb_spec (Node.id n) id) as [I|I].
  - right. exists n. auto.
  - left. subst. auto.
Qed.



(** X24. Wherever the pointer is while a node is resized at a non-zero
    scale, every node with its id ends at least 100 wide and 60 high; no
    node changes position, nodes with other ids keep their size, and the
    history is untouched. *)
Theorem resize_keeps_minimum (now : Date) (nodeId : string) (rs : ResizeStart.t)
        (tr : CanvasTransform.t) (e : Mouse.t) (s : t) :
  ~ CanvasTransform.scale tr == 0 ->
  let s' := resizeMove now nodeId rs tr e s in
  (forall n', In n' (nodes s') -> Node.id n' = nodeId ->
              100 <= Node.width n' /\ 60 <= Node.height n')
  /\ map (fun n => (Node.id n, Node.x n, Node.y n)) (nodes s')
     = map (fun n => (Node.id n, Node.x n, Node.y n)) (nodes s)
  /\ (forall n, In n (nodes s) -> Node.id n <> nodeId -> In n (nodes s'))
  /\ history s' = history s.
Proof.
  intros _ s'. subst s'. unfold resizeMove.
  split; [|split; [|split]]; try reflexivity.
  - intros n' Hn' Hid. apply updateNode_In in Hn'.
    destruct Hn' as [[_ Hne]|[n [_ [_ ->]]]]; [contradiction|].
    simpl. split; apply Q.le_max_l.
  - simpl. rewrite map_map. apply map_ext. intros n.
    destruct (String.eqb (Node.id n) nodeId); reflexivity.
  - intros n Hn Hne. simpl. apply in_map_iff. exists n. split; [|assumption].
    apply String.eqb_neq in Hne. now rewrite Hne.
Qed.

Lemma resize_keeps_minimum_witness :
  Forall (fun n' => Node.id n' = "node-1" ->
                    100 <= Node.width n' /\ 60 <= Node.height n')
         (nodes (resizeMove 5 "node-1" (ResizeStart.mk 400 300 200 120)
                            (CanvasTransform.mk 0 0 2) (Mouse.mk (-500) (-500))
                            oneNode)).
Proof.
  apply Forall_forall. intros n' Hn' Hid.
  assert (Hsc : ~ CanvasTransform.scale (CanvasTransform.mk 0 0 2) == 0)
    by (simpl; lra).
  destruct (resize_keeps_minimum 5 "node-1" (ResizeStart.mk 400 300 200 120)
              (CanvasTransform.mk 0 0 2) (Mouse.mk (-500) (-500)) oneNode Hsc)
    as [H _].
  exact (H n' Hn' Hid).
Defined.

(** ** What the layout leaves alone *)

Section LayoutFrame.

Variable keep : string -> bool.

Lemma updateAt_Forall {A : Type} (P : A -> Prop) (f : A -> A) :
  (forall a, P a -> P (f a)) ->
  forall i l, Forall P l -> Forall P (updateAt i f l).
Proof.
  intros Hf i l. revert i. induction l as [|a r IH]; intros i H; [destruct i; constructor|].
  inversion H; subst. destruct i; simpl; constructor; auto.
Qed.

Lemma physicsUpdate_kept (id : string) (f : Physics.t -> Physics.t) :
  (forall p, Physics.id (f p) = Physics.id p) ->
  forall ps, physicsKept keep ps -> physicsKept keep (physicsUpdate id f ps).
Proof.
  intros Hf ps. induction ps as [|p r IH]; intros H; [constructor|].
  inversion H; subst. simpl. destruct (String.eqb (Physics.id p) id).
  - constructor; [now rewrite Hf|assumption].
  - constructor; [assumption|now apply IH].
Qed.

Lemma map_kept (f : Physics.t -> Physics.t) :
  (forall p, Physics.id (f p) = Physics.id p) ->
  forall ps, physicsKept keep ps -> physicsKept keep (map f ps).
Proof.
  intros Hf ps H. unfold physicsKept in *. rewrite Forall_map.
  eapply Forall_impl; [|exact H]. intros p Hp. now rewrite Hf.
Qed.

Lemma forEach_invariant {A S : Type} (I : S -> Prop) (body : A -> S -> S) :
  (forall a st, I st -> I (body a st)) ->
  forall l st, I st -> I (forEach l body st).
Proof.
  intros Hb l. unfold forEach. induction l as [|a r IH]; intros st H; simpl; auto.
Qed.

Lemma forEachPair_invariant {S : Type} (I : S -> Prop) (body : nat -> nat -> S -> S) :
  (forall i j st, I st -> I (body i j st)) ->
  forall n st, I st -> I (forEachPair n body st).
Proof.
  intros Hb n. unfold forEachPair.
  generalize (seq 0 n). intros l. induction l as [|i r IH]; intros st H; simpl; auto.
  apply IH. generalize (seq (i + 1) (n - (i + 1))). intros l2. revert st H.
  induction l2 as [|j r2 IH2]; intros st H; simpl; auto.
Qed.

Variable sqrt : Q -> Q.

Lemma repel_kept (i j : nat) (ps : list Physics.t) :
  physicsKept keep ps -> physicsKept keep (repel sqrt i j ps).
Proof.
  intros H. unfold repel.
  destruct (nth_error ps i); [|assumption].
  destruct (nth_error ps j); [|assumption].
  destruct (Qltb 0 _); [|assumption].
  apply updateAt_Forall; [intros a Ha; exact Ha|].
  apply updateAt_Forall; [intros a Ha; exact Ha|assumption].
Qed.

Lemma spring_kept (c : Connection.t) (ps : list Physics.t) :
  physicsKept keep ps -> physicsKept keep (spring sqrt c ps).
Proof.
  intros H. unfold spring.
  destruct (physicsGet _ ps); [|assumption].
  destruct (physicsGet _ ps); [|assumption].
  destruct (Qltb 0 _); [|assumption].
  apply physicsUpdate_kept; [reflexivity|].
  apply physicsUpdate_kept; [reflexivity|assumption].
Qed.

Lemma pull_kept (gc : Center.t) (node : Node.t) (ps : list Physics.t) :
  physicsKept keep ps -> physicsKept keep (pull sqrt gc node ps).
Proof.
  intros H. unfold pull.
  destruct (physicsGet _ ps); [|assumption].
  destruct (Qltb 0 _); [|assumption].
  apply physicsUpdate_kept; [reflexivity|assumption].
Qed.

Lemma cohesion_kept (nbg : list (option string * list Node.t))
      (gcs : list (string * Center.t)) (ps : list Physics.t) :
  physicsKept keep ps -> physicsKept keep (cohesion sqrt nbg gcs ps).
Proof.
  unfold cohesion. apply forEach_invariant. intros entry st H.
  destruct (cohesive entry); [|assumption].
  destruct (mapGet _ _ gcs); [|assumption].
  apply forEach_invariant; [|assumption]. intros node st'. apply pull_kept.
Qed.

Lemma integrate_id (p : Physics.t) : Physics.id (integrate sqrt p) = Physics.id p.
Proof. unfold integrate. now destruct (Qltb MAX_VELOCITY _). Qed.

Lemma simStep_kept (rc : list Connection.t) (nbg : list (option string * list Node.t))
      (sim : Sim) :
  physicsKept keep (nodePhysics sim) -> physicsKept keep (nodePhysics (simStep sqrt rc nbg sim)).
Proof.
  intros H. unfold simStep. cbn [nodePhysics].
  apply map_kept; [reflexivity|].
  apply map_kept; [apply integrate_id|].
  apply cohesion_kept.
  apply forEach_invariant; [intros c st; apply spring_kept|].
  apply forEachPair_invariant; [intros i j st; apply repel_kept|].
  apply map_kept; [reflexivity|assumption].
Qed.

Lemma simulate_kept (rc : list Connection.t) (nbg : list (option string * list Node.t)) :
  forall fuel sim,
    physicsKept keep (nodePhysics sim) ->
    physicsKept keep (nodePhysics (simulate sqrt fuel rc nbg sim)).
Proof.
  induction fuel as [|fuel IH]; intros sim H; cbn [simulate]; [assumption|].
  destruct (_ && _); [|assumption].
  apply IH. now apply simStep_kept.
Qed.

Lemma physicsSet_kept (p : Physics.t) (ps : list Physics.t) :
  keep (Physics.id p) = true -> physicsKept keep ps -> physicsKept keep (physicsSet p ps).
Proof.
  intros Hp. induction ps as [|q r IH]; intros H; simpl.
  - constructor; [assumption|constructor].
  - inversion H; subst. destruct (String.eqb (Physics.id q) (Physics.id p)).
    + constructor; assumption.
    + constructor; [assumption|now apply IH].
Qed.

Lemma initial_kept (nodesToOrganize : list Node.t) :
  Forall (fun n => keep (Node.id n) = true) nodesToOrganize ->
  physicsKept keep (forEach nodesToOrganize
                       (fun node m => physicsSet (initPhysics sqrt node) m) []).
Proof.
  intros H. unfold forEach.
  assert (G : forall l acc,
             Forall (fun n => keep (Node.id n) = true) l -> physicsKept keep acc ->
             physicsKept keep (fold_left (fun st a => physicsSet (initPhysics sqrt a) st) l acc)).
  { induction l as [|n r IH]; intros acc Hl Ha; simpl; [assumption|].
    inversion Hl; subst. apply IH; [assumption|]. now apply physicsSet_kept. }
  apply G; [assumption|constructor].
Qed.

Lemma separate_kept (nodesToOrganize : list Node.t) (i j : nat)
      (st : list Final.t * bool) :
  finalsKept keep (fst st) -> finalsKept keep (fst (separate nodesToOrganize i j st)).
Proof.
  destruct st as [fs b]. intros H. unfold separate.
  destruct (nth_error fs i) as [posA|]; [|assumption].
  destruct (nth_error fs j) as [posB|]; [|assumption].
  destruct (findNode _ nodesToOrganize) as [nodeA|]; [|assumption].
  destruct (findNode _ nodesToOrganize) as [nodeB|]; [|assumption].
  destruct (_ && _); [|assumption].
  destruct (Qltb _ _); destruct (Qltb _ _); cbn [fst];
    (apply updateAt_Forall; [intros a Ha; exact Ha|]);
    (apply updateAt_Forall; [intros a Ha; exact Ha|]); assumption.
Qed.

Lemma resolveStep_kept (nodesToOrganize : list Node.t) (r : Resolve) :
  finalsKept keep (finalNodes r) -> finalsKept keep (finalNodes (resolveStep nodesToOrganize r)).
Proof.
  intros H. unfold resolveStep.
  pose proof (forEachPair_invariant (fun st => finalsKept keep (fst st))
                (separate nodesToOrganize)
                (fun i j st => separate_kept nodesToOrganize i j st)
                (List.length (finalNodes r)) (finalNodes r, false) H) as G.
  destruct (forEachPair _ _ _) as [finals overlaps]. cbn [finalNodes fst] in *.
  unfold finalsKept in *. rewrite Forall_map.
  eapply Forall_impl; [|exact G]. intros f Hf. exact Hf.
Qed.

Lemma resolveOverlaps_kept (nodesToOrganize : list Node.t) :
  forall fuel r,
    finalsKept keep (finalNodes r) ->
    finalsKept keep (finalNodes (resolveOverlaps fuel nodesToOrganize r)).
Proof.
  induction fuel as [|fuel IH]; intros r H; cbn [resolveOverlaps]; [assumption|].
  destruct (_ && _); [|assumption].
  apply IH. now apply resolveStep_kept.
Qed.

Lemma layout_kept (nodesToOrganize : list Node.t) (conns : list Connection.t) :
  Forall (fun n => keep (Node.id n) = true) nodesToOrganize ->
  finalsKept keep (finalNodes (snd (layout sqrt nodesToOrganize conns))).
Proof.
  intros H. unfold layout. cbn [snd].
  apply resolveOverlaps_kept. cbn [finalNodes].
  unfold finalsKept. rewrite Forall_map.
  pose proof (simulate_kept
                (filter (fun conn =>
                           existsb (fun n => String.eqb (Node.id n)
                                                        (Connection.fromNodeId conn))
                                   nodesToOrganize
                           && existsb (fun n => String.eqb (Node.id n)
                                                           (Connection.toNodeId conn))
                                      nodesToOrganize) conns)
                (forEach nodesToOrganize
                         (fun node m => groupPush (Node.groupId node) node m) [])
                MAX_ITERATIONS
                (mkSim (forEach nodesToOrganize
                                (fun node m => physicsSet (initPhysics sqrt node) m) [])
                       (initGroupCenters
                          (forEach nodesToOrganize
                                   (fun node m => groupPush (Node.groupId node) node m) []))
                       0 false)
                (initial_kept nodesToOrganize H)) as G.
  eapply Forall_impl; [|exact G]. intros p Hp. exact Hp.
Qed.

Variable now : Date.

Lemma keptOrPlaced_refl (l : list Node.t) : Forall2 (keptOrPlaced keep now) l l.
Proof. induction l; constructor; [now left|assumption]. Qed.

Lemma placeNode_step (f : Final.t) :
  keep (Final.id f) = true ->
  forall l0 l, Forall2 (keptOrPlaced keep now) l0 l ->
               Forall2 (keptOrPlaced keep now) l0 (placeNode now f l).
Proof.
  intros Hf l0 l H. induction H as [|n n' r r' Hn Hr IH]; simpl; [constructor|].
  destruct (String.eqb_spec (Node.id n') (Final.id f)) as [E|E].
  - constructor; [|assumption].
    right. destruct Hn as [->|[Hk [x [y ->]]]].
    + split; [now rewrite E|]. eexists. eexists. reflexivity.
    + split; [assumption|]. eexists. eexists. reflexivity.
  - constructor; assumption.
Qed.

Lemma placeAll (fs : list Final.t) :
  finalsKept keep fs ->
  forall l0 l, Forall2 (keptOrPlaced keep now) l0 l ->
               Forall2 (keptOrPlaced keep now) l0 (forEach fs (placeNode now) l).
Proof.
  unfold forEach. induction fs as [|f r IH]; intros H l0 l Hl; simpl; [assumption|].
  inversion H; subst. apply IH; [assumption|]. now apply placeNode_step.
Qed.

End LayoutFrame.

(** X26. [autoOrganizeNodes] changes nothing but node positions, their
    [updatedAt] and the history: connections, groups, transform and selection
    stay, and node for node the result is the node as it was or, only for an
    id of the selection, the same node at another place. No node is added,
    dropped, reordered or resized, and no node outside the selection
    moves. This holds for every square-root function. *)
Theorem autoOrganizeNodes_frame (sqrt : Q -> Q) (now : Date) (s : t) :
  connections (autoOrganizeNodes sqrt now s) = connections s
  /\ groups (autoOrganizeNodes sqrt now s) = groups s
  /\ transform (autoOrganizeNodes sqrt now s) = transform s
  /\ selectedNodeId (autoOrganizeNodes sqrt now s) = selectedNodeId s
  /\ selectedNodeIds (autoOrganizeNodes sqrt now s) = selectedNodeIds s
  /\ Forall2 (keptOrPlaced (organizesId s) now)
             (nodes s) (nodes (autoOrganizeNodes sqrt now s)).
Proof.
  unfold autoOrganizeNodes.
  set (selection := if (0 <? List.length (selectedNodeIds s))%nat then _ else _).
  assert (Hsel : forall l, selection = Some l ->
                           Forall (fun n => organizesId s (Node.id n) = true) l).
  { intros l. subst selection. unfold organizesId.
    destruct (0 <? List.length (selectedNodeIds s))%nat.
    - intros E. injection E as <-. apply Forall_forall. intros n Hn.
      now apply filter_In in Hn.
    - destruct (truthy (selectedNodeId s)) as [id|]; [|discriminate].
      intros E. injection E as <-. apply Forall_forall. intros n Hn.
      now apply filter_In in Hn. }
  destruct selection as [[|n l]|];
    try (repeat split; apply keptOrPlaced_refl).
  pose proof (layout_kept (organizesId s) sqrt (n :: l) (connections s)
                          (Hsel _ eq_refl)) as Hk.
  destruct (layout sqrt (n :: l) (connections s)) as [sim resolved].
  cbn [snd] in Hk.
  repeat split. simpl.
  apply placeAll; [assumption|apply keptOrPlaced_refl].
Qed.

(** ** New groups *)

Lemma addGroup_keeps_integrity (now : Date) (name color : string)
      (nodeIds : list string) (s : t) :
  (forall m, In m nodeIds -> resolves m (nodes s)) ->
  (forall g m, In g (groups s) -> In m (NodeGroup.nodes g) -> ~ In m nodeIds) ->
  referentialIntegrity s -> referentialIntegrity (addGroup now name color nodeIds s).
Proof.
  intros Hres Hfree [Hc Hg]. split; simpl.
  - intros c Hin. destruct (Hc c Hin) as [Ha Hb].
    split; apply resolves_map; try assumption; same_id.
  - intros g m Hin Hm. apply in_app_or in Hin. destruct Hin as [Hin|[<-|[]]].
    + apply memberOf_map; [same_id| |now apply Hg].
      intros n En G. destruct (includes nodeIds (Node.id n)) eqn:I; [|exact G].
      apply includes_In in I. rewrite En in I. now apply Hfree in Hm.
    + simpl in *. destruct (Hres m Hm) as [n [Hn En]].
      exists (Node.set_groupId (Some ("group-" ++ string_of_Z now)) n).
      split; [|split; [assumption|reflexivity]].
      apply in_map_iff. exists n. split; [|assumption].
      apply includes_In in Hm. now rewrite En, Hm.
Qed.

(** X27. [addGroup] gives every node whose id is listed the id of the new
    group and appends the new group, with the name, the colour and the ids
    as given, to the groups, which stay as they are. It keeps referential
    integrity when every listed id resolves to a node and no group listed
    one of the ids before. *)
Theorem addGroup_integrity (now : Date) (name color : string) (nodeIds : list string)
        (s : t) :
  (forall n, In n (nodes (addGroup now name color nodeIds s)) ->
             In (Node.id n) nodeIds ->
             Node.groupId n = Some ("group-" ++ string_of_Z now))
  /\ groups (addGroup now name color nodeIds s)
     = (groups s ++ [NodeGroup.mk ("group-" ++ string_of_Z now) name color nodeIds])%list
  /\ (forall g, In g (groups s) -> In g (groups (addGroup now name color nodeIds s)))
  /\ (referentialIntegrity s ->
      (forall m, In m nodeIds -> resolves m (nodes s)) ->
      (forall g m, In g (groups s) -> In m (NodeGroup.nodes g) -> ~ In m nodeIds) ->
      referentialIntegrity (addGroup now name color nodeIds s)).
Proof.
  split; [|split; [|split]].
  - intros n Hn Hid. simpl in Hn. apply in_map_iff in Hn. destruct Hn as [n0 [<- _]].
    destruct (includes nodeIds (Node.id n0)) eqn:E; [reflexivity|].
    apply includes_In in Hid. congruence.
  - reflexivity.
  - intros g Hg. simpl. apply in_or_app. now left.
  - intros H Hres Hfree. now apply addGroup_keeps_integrity.
Qed.

Lemma addGroup_integrity_witness :
  referentialIntegrity (addGroup 6 "Ideas" "#8b5cf6" ["node-1"; "node-2"] linkedPair).
Proof.
  apply (addGroup_integrity 6 "Ideas" "#8b5cf6" ["node-1"; "node-2"] linkedPair).
  - exact linkedPair_integrity.
  - intros m [<-|[<-|[]]]; eexists.
    + split; [left; reflexivity|reflexivity].
    + split; [right; left; reflexivity|reflexivity].
  - intros g m Hg Hm. simpl in Hg.
    destruct Hg as [<-|[<-|[<-|[]]]]; destruct Hm.
Defined.

(** ** Referential integrity across the store actions *)
























